(** * StudyMate: document indexing and semantic retrieval

    A shallow embedding of [pdf_processing.py] and [embedding_retrieval.py]
    and the properties of the chunker, the batch processor and the retriever.

    Conventions of the embedding.
    - A Python [str] is a list of Unicode code points ([N]); [lit] injects an
      ASCII literal.
    - A Python [dict] with string keys is a [gmap string value].
    - A number held in a [float] or in an array is given by its value, an
      exact rational ([Q]). The [float32] arithmetic of FAISS is not
      reproduced: the distance it computes is a parameter ([Faiss]), which
      may round and may fail to be finite.
    - The chunk dictionaries held by a retriever live in a store and are
      referred to by location, so that [dict.copy] and item assignment have
      their aliasing behaviour.
    - Exceptions are explicit: a computation over the retriever returns
      [exn + A] together with the state it leaves behind.
    - The [while] loop of [chunk_text] is run with fuel; [None] means the
      fuel ran out. *)

From Stdlib Require Import ZArith QArith Ascii String List Lia.
From Stdlib Require Import DecimalString.
From stdpp Require Import gmap strings list fin_maps sorting.

Local Open Scope Z_scope.

(* ===================================================================== *)
(** * Python strings and sequences *)
(* ===================================================================== *)

Abbreviation pystr := (list N).

(** An ASCII literal as a Python string. *)
Definition lit (s : string) : pystr :=
  map N_of_ascii (list_ascii_of_string s).

(** The code points Python's [str.isspace], [str.strip] and [str.split]
    treat as whitespace. *)
Definition is_space (c : N) : bool :=
  ((9 <=? c) && (c <=? 13) || (28 <=? c) && (c <=? 32)
   || (c =? 133) || (c =? 160) || (c =? 5760)
   || (8192 <=? c) && (c <=? 8202)
   || (c =? 8232) || (c =? 8233) || (c =? 8239) || (c =? 8287)
   || (c =? 12288))%N.

Fixpoint lstrip (s : pystr) : pystr :=
  match s with
  | [] => []
  | c :: s' => if is_space c then lstrip s' else s
  end.

Definition rstrip (s : pystr) : pystr := rev (lstrip (rev s)).

(** [s.strip()] *)
Definition strip (s : pystr) : pystr := rstrip (lstrip s).

(** Truthiness of a string: [if s:]. *)
Definition truthy (s : pystr) : bool :=
  match s with [] => false | _ => true end.

(** [s.split()]: maximal runs of non-whitespace; [cur] is the word being
    read, most recent code point first. *)
Fixpoint split_aux (cur s : pystr) : list pystr :=
  match s with
  | [] => match cur with [] => [] | _ => [rev cur] end
  | c :: s' =>
      if is_space c
      then match cur with
           | [] => split_aux [] s'
           | _ => rev cur :: split_aux [] s'
           end
      else split_aux (c :: cur) s'
  end.

Definition split (s : pystr) : list pystr := split_aux [] s.

(** [sep.join(parts)] *)
Fixpoint join (sep : pystr) (parts : list pystr) : pystr :=
  match parts with
  | [] => []
  | [p] => p
  | p :: rest => p ++ sep ++ join sep rest
  end.

(** [s.endswith(suffix)] *)
Definition endswith (s suffix : pystr) : bool :=
  bool_decide (drop (length s - length suffix)%nat s = suffix).

(** Python's treatment of a slice bound against a sequence of length [n]. *)
Definition clamp_index (n i : Z) : Z :=
  if i <? 0 then Z.max (i + n) 0 else Z.min i n.

(** [l[start:stop]] *)
Definition py_slice {A} (l : list A) (start stop : Z) : list A :=
  let n := Z.of_nat (length l) in
  let a := clamp_index n start in
  let b := clamp_index n stop in
  take (Z.to_nat (b - a)) (drop (Z.to_nat a) l).

(** [str(n)] for an integer. *)
Definition str_of_int (n : Z) : pystr :=
  lit (NilZero.string_of_int (Z.to_int n)).

(* ===================================================================== *)
(** * pdf_processing.chunk_text *)
(* ===================================================================== *)

(** What one pass through the body of the [while] loop does. *)
Inductive loop_step :=
| Continue (start : Z) (chunks : list pystr)
| Break (chunks : list pystr).

(** The body of [while start < len(words)], entered with the loop condition
    true. *)
Definition chunk_body (words : list pystr) (chunk_size overlap : Z)
    (start : Z) (chunks : list pystr) : loop_step :=
  let n := Z.of_nat (length words) in
  let end_ := Z.min (start + chunk_size) n in
  let chunk_words := py_slice words start end_ in
  let chunk_text := join (lit " ") chunk_words in
  let chunks :=
    if truthy (strip chunk_text) then chunks ++ [strip chunk_text] else chunks in
  if n <=? end_ then Break chunks
  else
    let start := end_ - overlap in
    let start := if start <=? 0 then end_ else start in
    Continue start chunks.

Fixpoint chunk_loop (fuel : nat) (words : list pystr) (chunk_size overlap : Z)
    (start : Z) (chunks : list pystr) : option (list pystr) :=
  match fuel with
  | O => None
  | S fuel =>
      if start <? Z.of_nat (length words) then
        match chunk_body words chunk_size overlap start chunks with
        | Break chunks => Some chunks
        | Continue start chunks =>
            chunk_loop fuel words chunk_size overlap start chunks
        end
      else Some chunks
  end.

Definition chunk_text (fuel : nat) (text : pystr) (chunk_size overlap : Z)
  : option (list pystr) :=
  if negb (truthy text) then Some []
  else
    let words := split text in
    if Z.of_nat (length words) <=? chunk_size then Some [text]
    else chunk_loop fuel words chunk_size overlap 0 [].

(** The ceiling of [a / b] for a positive divisor, as the chunk count
    invariant writes it. *)
Definition ceil_div (a b : Z) : Z := (a + b - 1) / b.

(* ===================================================================== *)
(** * Python values, dictionaries and exceptions *)
(* ===================================================================== *)

Inductive value :=
| VStr (s : pystr)
| VInt (n : Z)
| VFloat (q : Q).

Abbreviation dict := (gmap string value).

Inductive exn :=
| KeyError
| TypeError
| IndexError
| AssertionError
| EncodeError
| ModelLoadError
| DanglingRef.

(** [d[key]] *)
Definition getitem (d : dict) (key : string) : exn + value :=
  match d !! key with
  | Some v => inr v
  | None => inl KeyError
  end.

(** [d.get(key, dflt)] *)
Definition dict_get (d : dict) (key : string) (dflt : value) : value :=
  default dflt (d !! key).

(** [l[i]] on a list, negative indices counting from the end. *)
Definition py_index {A} (l : list A) (i : Z) : exn + A :=
  let n := Z.of_nat (length l) in
  let j := if i <? 0 then i + n else i in
  if (0 <=? j) && (j <? n)
  then match l !! Z.to_nat j with
       | Some x => inr x
       | None => inl IndexError
       end
  else inl IndexError.

Definition nl : pystr := [10%N].

(* ===================================================================== *)
(** * What the code takes from its libraries *)
(* ===================================================================== *)

(** PyMuPDF's view of a page: the three extraction methods of
    [page.get_text]. The ["dict"] form is modelled with the optional keys
    the code reads through [.get] and [in]. *)
Record Span := { span_text : option pystr }.
Record Line := { line_spans : option (list Span) }.
Record DictBlock := { block_lines : option (list Line) }.
Record TextDict := { dict_blocks : option (list DictBlock) }.

Record Page := {
  text_layer : pystr;                 (* page.get_text("text") *)
  dict_layer : TextDict;              (* page.get_text("dict") *)
  blocks_layer : list (list value)    (* page.get_text("blocks"), tuples *)
}.

(** The library functions whose tables are not reproduced here; every
    theorem holds for any implementation of them. *)
Class Runtime := {
  (** [re.sub(pattern, repl, text, flags)]; the flag is [re.MULTILINE]. *)
  re_sub : pystr -> pystr -> bool -> pystr -> pystr;
  (** [str.lower] *)
  str_lower : pystr -> pystr;
  (** [fitz.open(stream=bytes, filetype="pdf")]; [None] when it raises. *)
  fitz_open : list Byte.byte -> option (list Page);
  (** formatting of a float in an f-string *)
  float_str : Q -> pystr
}.

(** A Streamlit uploaded file; [size] is absent when the object has no such
    attribute. *)
Record UploadedFile := {
  name : pystr;
  size : option Z;
  content : list Byte.byte
}.

Section WithRuntime.
Context `{rt : Runtime}.

(* ===================================================================== *)
(** * pdf_processing: extraction and cleaning *)
(* ===================================================================== *)

Definition bullets : pystr := [8226; 183; 9642; 9643; 9702; 8227; 8259]%N.

Definition clean_text (text : pystr) : pystr :=
  if negb (truthy text) then []
  else
    let text := re_sub (lit "\n\s*\n\s*\n") (nl ++ nl) false text in
    let text := re_sub (lit "[ \t]+") (lit " ") false text in
    let text := re_sub (lit "^\d+\s*$") [] true text in
    let text := re_sub (lit "^\s*Page\s+\d+\s*$") [] true text in
    let text :=
      re_sub (lit "http[s]?://(?:[a-zA-Z]|[0-9]|[$-_@.&+]|[!*\\(\\),]|(?:%[0-9a-fA-F][0-9a-fA-F]))+")
        [] false text in
    let text :=
      re_sub (lit "\b[A-Za-z0-9._%+-]+@[A-Za-z0-9.-]+\.[A-Z|a-z]{2,}\b")
        [] false text in
    let text :=
      re_sub (lit "[" ++ bullets ++ lit "]{2,}") (8226%N :: lit " ") false text in
    let text := re_sub (lit "-{3,}") (lit "---") false text in
    let text := re_sub (lit "={3,}") (lit "===") false text in
    let text := re_sub (lit "\n\s*\n\s*\n") (nl ++ nl) false text in
    strip text.

Definition line_text (line : Line) : pystr :=
  concat (map (fun span => default [] (span_text span))
              (default [] (line_spans line))).

Definition extract_text_from_dict (text_dict : TextDict) : pystr :=
  let text_parts :=
    flat_map
      (fun block =>
         match block_lines block with
         | None => []
         | Some lines =>
             flat_map
               (fun line =>
                  let line_text := line_text line in
                  if truthy (strip line_text) then [strip line_text] else [])
               lines
         end)
      (default [] (dict_blocks text_dict)) in
  join nl text_parts.

(** [[block[4] for block in blocks if len(block) > 4 and block[4].strip()]];
    [None] when a fifth component is not a string (the attribute error is
    caught by the caller). *)
Fixpoint blocks_text (blocks : list (list value)) : option (list pystr) :=
  match blocks with
  | [] => Some []
  | block :: blocks =>
      match block !! 4%nat with
      | None => blocks_text blocks
      | Some (VStr s) =>
          match blocks_text blocks with
          | Some rest => Some (if truthy (strip s) then s :: rest else rest)
          | None => None
          end
      | Some _ => None
      end
  end.

(** The text of one page after the three methods. *)
Definition page_text (page : Page) : option pystr :=
  let text := text_layer page in
  let text :=
    if negb (truthy (strip text))
    then extract_text_from_dict (dict_layer page) else text in
  if negb (truthy (strip text))
  then match blocks_text (blocks_layer page) with
       | Some parts => Some (join nl parts)
       | None => None
       end
  else Some text.

(** The loop over the pages: the list [text_content]. *)
Fixpoint extract_pages (pages : list Page) : option (list pystr) :=
  match pages with
  | [] => Some []
  | page :: pages =>
      match page_text page with
      | None => None
      | Some text =>
          match extract_pages pages with
          | None => None
          | Some rest =>
              if truthy (strip text)
              then let cleaned_text := clean_text text in
                   Some (if truthy cleaned_text then cleaned_text :: rest else rest)
              else Some rest
          end
      end
  end.

Definition no_text_message : pystr :=
  lit "No text content could be extracted from this PDF. This might be a scanned document or image-based PDF that requires OCR processing.".

Definition extract_text_from_pdf (pdf_file : UploadedFile) : pystr :=
  let pdf_bytes := content pdf_file in
  if (length pdf_bytes =? 0)%nat then []
  else
    match fitz_open pdf_bytes with
    | None => []
    | Some pages =>
        match extract_pages pages with
        | None => []
        | Some text_content =>
            let full_text := join (nl ++ nl) text_content in
            if (length (strip full_text) =? 0)%nat
            then no_text_message
            else full_text
        end
    end.

(* ===================================================================== *)
(** * pdf_processing.process_uploaded_pdfs *)
(* ===================================================================== *)

Definition len (s : pystr) : Z := Z.of_nat (length s).

Definition file_size (f : UploadedFile) : Z :=
  match size f with
  | Some n => n
  | None => Z.of_nat (length (content f))
  end.

Definition status_entry (filename : pystr) (status reason : string) : dict :=
  {[ "filename" := VStr filename;
     "status" := VStr (lit status);
     "reason" := VStr (lit reason) ]}.

Definition success_entry (filename : pystr) (file_chunks text_length : Z) : dict :=
  {[ "filename" := VStr filename;
     "status" := VStr (lit "success");
     "chunks_created" := VInt file_chunks;
     "text_length" := VInt text_length ]}.

Definition chunk_data (filename : pystr) (chunk_idx : Z) (chunk : pystr)
    (file_idx text_length : Z) : dict :=
  {[ "filename" := VStr filename;
     "chunk_index" := VInt chunk_idx;
     "text" := VStr chunk;
     "file_index" := VInt file_idx;
     "original_text_length" := VInt text_length ]}.

(** One pass through the body of the loop over the files: the chunk
    dictionaries appended to [all_chunks] and the entry appended to
    [processing_results]. *)
Definition process_file (fuel : nat) (file_idx : Z) (uploaded_file : UploadedFile)
  : option (list dict * dict) :=
  let filename := name uploaded_file in
  if negb (endswith (str_lower filename) (lit ".pdf"))
  then Some ([], status_entry filename "skipped" "Not a PDF file")
  else if file_size uploaded_file =? 0
  then Some ([], status_entry filename "failed" "Empty file")
  else
    let text := extract_text_from_pdf uploaded_file in
    if negb (truthy text) || (len (strip text) =? 0)
    then Some ([], status_entry filename "failed" "No text content found")
    else
      match chunk_text fuel text 500 100 with
      | None => None
      | Some [] =>
          Some ([], status_entry filename "failed" "Could not create text chunks")
      | Some chunks =>
          Some (imap (fun chunk_idx chunk =>
                        chunk_data filename (Z.of_nat chunk_idx) chunk
                          file_idx (len text)) chunks,
                success_entry filename (Z.of_nat (length chunks)) (len text))
      end.

Fixpoint process_loop (fuel : nat) (file_idx : Z) (files : list UploadedFile)
    (all_chunks processing_results : list dict) : option (list dict * list dict) :=
  match files with
  | [] => Some (all_chunks, processing_results)
  | f :: files =>
      match process_file fuel file_idx f with
      | None => None
      | Some (file_chunks, entry) =>
          process_loop fuel (file_idx + 1) files
            (all_chunks ++ file_chunks) (processing_results ++ [entry])
      end
  end.

(** The function returns [all_chunks]; [processing_results] only feeds the
    logged summary. *)
Definition process_uploaded_pdfs (fuel : nat) (uploaded_files : list UploadedFile)
  : option (list dict) :=
  fst <$> process_loop fuel 0 uploaded_files [] [].

(* ===================================================================== *)
(** * embedding_retrieval.get_chunk_sources *)
(* ===================================================================== *)

(** [v + 1] *)
Definition add_one (v : value) : exn + value :=
  match v with
  | VInt n => inr (VInt (n + 1))
  | VFloat q => inr (VFloat (q + 1)%Q)
  | VStr _ => inl TypeError
  end.

(** The rendering of a value inside an f-string. *)
Definition format_value (v : value) : pystr :=
  match v with
  | VStr s => s
  | VInt n => str_of_int n
  | VFloat q => float_str q
  end.

(** The conditional expression that computes ["preview"]. *)
Definition preview_of (text : value) : exn + value :=
  match text with
  | VStr s =>
      if 200 <? len s then inr (VStr (py_slice s 0 200 ++ lit "..."))
      else inr text
  | _ => inl TypeError
  end.

Definition chunk_source (chunk : dict) : exn + dict :=
  let filename := dict_get chunk "filename" (VStr (lit "Unknown")) in
  match add_one (dict_get chunk "chunk_index" (VInt 0)) with
  | inl e => inl e
  | inr n =>
      let section := VStr (lit "Section " ++ format_value n) in
      match preview_of (dict_get chunk "text" (VStr [])) with
      | inl e => inl e
      | inr preview =>
          inr ({[ "filename" := filename;
                  "section" := section;
                  "preview" := preview ]} : dict)
      end
  end.

Fixpoint get_chunk_sources (chunks : list dict) : exn + list dict :=
  match chunks with
  | [] => inr []
  | chunk :: chunks =>
      match chunk_source chunk with
      | inl e => inl e
      | inr source =>
          match get_chunk_sources chunks with
          | inl e => inl e
          | inr sources => inr (source :: sources)
          end
      end
  end.

End WithRuntime.

(* ===================================================================== *)
(** * FAISS: the flat L2 index *)
(* ===================================================================== *)

Abbreviation vec := (list Q).
Abbreviation matrix := (list (list Q)).

(** FAISS is a library the code calls. Its distance kernel works in
    [float32], rounding as it goes; it is taken as it is, and every theorem
    holds for any implementation of it. Vectors are kept as the code hands
    them over: the casts [astype('float32')] are counted with the kernel. *)
Class Faiss := {
  (** [fvec_L2sqr] on the [float32] casts of a query and of a stored row:
      the [float32] computed for their squared L2 distance, [None] when the
      result is not finite (the sum has overflowed, or is not a number). *)
  fvec_L2sqr : vec -> vec -> option Q
}.

(** [faiss.IndexFlatL2(d)] after [add]: the dimension and the stored rows,
    in insertion order ([ntotal] is the number of rows). A numpy matrix is
    rectangular, so [add] has nothing to reject. *)
Record IndexFlatL2 := { dim : nat; xb : matrix }.

Definition ntotal (ix : IndexFlatL2) : Z := Z.of_nat (length (xb ix)).

(** The largest finite [float32]: the threshold the heap of results starts
    from, and the distance FAISS reports for a missing neighbour. *)
Definition FLT_MAX : Q := inject_Z 340282346638528859811704183484516925440.

(** The scan of the stored rows from row number [i]: a row is a candidate
    when its distance is below the threshold, so a row whose distance is
    not finite never is. *)
Fixpoint scan_rows `{faiss : Faiss} (q : vec) (i : nat) (rows : matrix) : list (Q * Z) :=
  match rows with
  | [] => []
  | x :: rows =>
      match fvec_L2sqr q x with
      | Some distance =>
          if Qle_bool FLT_MAX distance then scan_rows q (S i) rows
          else (distance, Z.of_nat i) :: scan_rows q (S i) rows
      | None => scan_rows q (S i) rows
      end
  end.

(** Insertion of a hit into a list of hits sorted by distance; equal
    distances keep the order in which the rows were added. *)
Fixpoint insert_hit (h : Q * Z) (hits : list (Q * Z)) : list (Q * Z) :=
  match hits with
  | [] => [h]
  | h' :: rest =>
      if Qle_bool (fst h) (fst h') then h :: hits
      else h' :: insert_hit h rest
  end.

Definition sort_hits (hits : list (Q * Z)) : list (Q * Z) :=
  foldr insert_hit [] hits.

(** The [k] nearest candidates to one query vector, nearest first. *)
Definition nearest `{faiss : Faiss} (ix : IndexFlatL2) (k : nat) (q : vec) : list (Q * Z) :=
  take k (sort_hits (scan_rows q 0 (xb ix))).

(** One row of the result of a search: the nearest candidates, padded
    with distance [FLT_MAX] and row id [-1] when there are fewer than [k]
    of them. *)
Definition search_row `{faiss : Faiss} (ix : IndexFlatL2) (k : nat) (q : vec)
  : list (Q * Z) :=
  let hits := nearest ix k q in
  hits ++ replicate (k - length hits)%nat (FLT_MAX, -1).

(** [index.search(x, k)]: the wrapper asserts the dimension of the queries
    and [k > 0]; the result is the pair of arrays [(distances, indices)],
    one row per query. *)
Definition index_search `{faiss : Faiss} (ix : IndexFlatL2) (x : matrix) (k : Z)
  : exn + (matrix * list (list Z)) :=
  if negb (forallb (fun q => (length q =? dim ix)%nat) x) then inl AssertionError
  else if k <=? 0 then inl AssertionError
  else
    let rows := map (search_row ix (Z.to_nat k)) x in
    inr (map (map fst) rows, map (map snd) rows).

(* ===================================================================== *)
(** * embedding_retrieval.EmbeddingRetriever *)
(* ===================================================================== *)

Abbreviation loc := nat.

(** The attributes of an [EmbeddingRetriever]. [self_model] is
    [self.model.encode]: [None] when the call raises. *)
Record Retriever := {
  self_model_name : pystr;
  self_model : list value -> option matrix;
  self_index : option IndexFlatL2;
  self_chunks : list loc;
  self_embeddings : option matrix
}.

Definition set_chunks (chunks : list loc) (r : Retriever) : Retriever :=
  {| self_model_name := self_model_name r; self_model := self_model r;
     self_index := self_index r; self_chunks := chunks;
     self_embeddings := self_embeddings r |}.

Definition set_embeddings (e : option matrix) (r : Retriever) : Retriever :=
  {| self_model_name := self_model_name r; self_model := self_model r;
     self_index := self_index r; self_chunks := self_chunks r;
     self_embeddings := e |}.

Definition set_index (ix : option IndexFlatL2) (r : Retriever) : Retriever :=
  {| self_model_name := self_model_name r; self_model := self_model r;
     self_index := ix; self_chunks := self_chunks r;
     self_embeddings := self_embeddings r |}.

(** The retriever, the store of dictionaries, and the arguments of the
    calls made to the embedding model so far. *)
Record State := {
  self : Retriever;
  store : gmap loc dict;
  encode_calls : list (list value)
}.

Definition with_self (f : Retriever -> Retriever) (st : State) : State :=
  {| self := f (self st); store := store st; encode_calls := encode_calls st |}.

Definition with_store (f : gmap loc dict -> gmap loc dict) (st : State) : State :=
  {| self := self st; store := f (store st); encode_calls := encode_calls st |}.

(** Computations that read and write the state and may raise; the state
    reached when an exception is raised is kept, as in Python. *)
Definition M (A : Type) : Type := State -> (exn + A) * State.

Definition ret {A} (a : A) : M A := fun st => (inr a, st).

Definition raise {A} (e : exn) : M A := fun st => (inl e, st).

Definition bind {A B} (m : M A) (f : A -> M B) : M B :=
  fun st =>
    match m st with
    | (inr a, st') => f a st'
    | (inl e, st') => (inl e, st')
    end.

Definition lift {A} (r : exn + A) : M A :=
  match r with
  | inr a => ret a
  | inl e => raise e
  end.

(** [try: body  except Exception: handler] *)
Definition try_except {A} (body : M A) (handler : exn -> M A) : M A :=
  fun st =>
    match body st with
    | (inr a, st') => (inr a, st')
    | (inl e, st') => handler e st'
    end.

Declare Scope py_scope.
Delimit Scope py_scope with py.
Notation "x <- m ;; k" := (bind m (fun x => k))
  (at level 100, m at next level, right associativity) : py_scope.
Notation "m ;;; k" := (bind m (fun _ => k))
  (at level 100, right associativity) : py_scope.
Local Open Scope py_scope.

Definition get_self : M Retriever := fun st => (inr (self st), st).

Definition modify_self (f : Retriever -> Retriever) : M unit :=
  fun st => (inr tt, with_self f st).

(** [self.model.encode(texts, ...)] *)
Definition model_encode (texts : list value) : M matrix :=
  fun st =>
    let st' := {| self := self st; store := store st;
                  encode_calls := encode_calls st ++ [texts] |} in
    match self_model (self st) texts with
    | Some m => (inr m, st')
    | None => (inl EncodeError, st')
    end.

(** Reading the dictionary a reference points to. *)
Definition load (l : loc) : M dict :=
  fun st =>
    match store st !! l with
    | Some d => (inr d, st)
    | None => (inl DanglingRef, st)
    end.

(** [d.copy()]: a new dictionary with the same items. *)
Definition dict_copy (l : loc) : M loc :=
  d <- load l ;;
  fun st =>
    let l' := fresh (dom (store st)) in
    (inr l', with_store (insert l' d) st).

(** [d[key] = v] *)
Definition dict_setitem (l : loc) (key : string) (v : value) : M unit :=
  d <- load l ;;
  fun st => (inr tt, with_store (insert l (<[key := v]> d)) st).

(** [[chunk["text"] for chunk in chunks]] *)
Fixpoint chunk_texts (chunks : list loc) : M (list value) :=
  match chunks with
  | [] => ret []
  | c :: chunks =>
      d <- load c ;;
      t <- lift (getitem d "text") ;;
      ts <- chunk_texts chunks ;;
      ret (t :: ts)
  end.

Definition create_embeddings (chunks : list loc) : M matrix :=
  match chunks with
  | [] => ret []
  | _ =>
      modify_self (set_chunks chunks) ;;;
      texts <- chunk_texts chunks ;;
      try_except
        (embeddings <- model_encode texts ;;
         modify_self (set_embeddings (Some embeddings)) ;;;
         ret embeddings)
        (fun e => raise e)
  end.

Definition build_faiss_index (embeddings : option matrix) : M unit :=
  r <- get_self ;;
  let embeddings :=
    match embeddings with
    | None => self_embeddings r
    | Some e => Some e
    end in
  match embeddings with
  | None => ret tt
  | Some [] => ret tt
  | Some ((row :: _) as e) =>
      try_except
        (let dimension := length row in
         modify_self (set_index (Some {| dim := dimension; xb := e |})))
        (fun e => raise e)
  end.

(** The loop over [enumerate(zip(distances[0], indices[0]))]. *)
Fixpoint retrieve_loop (hits : list (Q * Z)) (i : Z) (results : list loc)
  : M (list loc) :=
  match hits with
  | [] => ret results
  | (distance, idx) :: hits =>
      r <- get_self ;;
      if idx <? Z.of_nat (length (self_chunks r)) then
        c <- lift (py_index (self_chunks r) idx) ;;
        chunk <- dict_copy c ;;
        dict_setitem chunk "similarity_score" (VFloat distance) ;;;
        dict_setitem chunk "rank" (VInt (i + 1)) ;;;
        retrieve_loop hits (i + 1) (results ++ [chunk])
      else retrieve_loop hits (i + 1) results
  end.

Definition retrieve_relevant_chunks `{faiss : Faiss} (query : pystr) (top_k : Z)
  : M (list loc) :=
  if negb (truthy (strip query)) then ret []
  else
    r <- get_self ;;
    match self_index r with
    | None => ret []
    | Some ix =>
        if (length (self_chunks r) =? 0)%nat then ret []
        else
          try_except
            (query_embedding <- model_encode [VStr query] ;;
             found <-
               lift (index_search ix query_embedding
                       (Z.min top_k (Z.of_nat (length (self_chunks r))))) ;;
             d0 <- lift (py_index (fst found) 0) ;;
             i0 <- lift (py_index (snd found) 0) ;;
             retrieve_loop (zip d0 i0) 0 [])
            (fun _ => ret [])
    end.

(** Ingestion as [initialize_retrieval_system] performs it on its
    retriever. *)
Definition ingest (chunks : list loc) : M unit :=
  embeddings <- create_embeddings chunks ;;
  build_faiss_index (Some embeddings).

(** A retriever as [__init__] leaves it once the model is loaded. *)
Definition new_retriever (model_name : pystr)
    (model : list value -> option matrix) : Retriever :=
  {| self_model_name := model_name; self_model := model;
     self_index := None; self_chunks := []; self_embeddings := None |}.

(** [initialize_retrieval_system]: [load_model] is
    [SentenceTransformer(model_name)], [None] when loading raises. The
    retriever is returned only when nothing raised. *)
Definition initialize_retrieval_system
    (load_model : pystr -> option (list value -> option matrix))
    (chunks : list loc) (model_name : pystr) (heap : gmap loc dict)
  : exn + Retriever :=
  match load_model model_name with
  | None => inl ModelLoadError
  | Some model =>
      let retriever := new_retriever model_name model in
      match chunks with
      | [] => inr retriever
      | _ =>
          match ingest chunks {| self := retriever; store := heap;
                                 encode_calls := [] |} with
          | (inr _, st) => inr (self st)
          | (inl e, _) => inl e
          end
      end
  end.

(** Any number of queries, one after the other. *)
Fixpoint run_queries `{faiss : Faiss} (queries : list (pystr * Z)) (st : State)
  : State :=
  match queries with
  | [] => st
  | (query, top_k) :: queries =>
      run_queries queries (snd (retrieve_relevant_chunks query top_k st))
  end.

(* ===================================================================== *)
(** * Predicates used in the statements *)
(* ===================================================================== *)

(** A word as [str.split] produces it: not empty, no whitespace inside. *)
Definition word_ok (w : pystr) : Prop :=
  w ≠ [] ∧ Forall (fun c => is_space c = false) w.

(** Hits compared by distance. *)
Definition hit_le (a b : Q * Z) : Prop := (fst a <= fst b)%Q.

(** A hit that reports a row of the index with the distance computed for
    it. *)
Definition row_hit `{faiss : Faiss} (ix : IndexFlatL2) (q : vec) (h : Q * Z) : Prop :=
  ∃ (i : nat) (x : vec),
    xb ix !! i = Some x ∧ fvec_L2sqr q x = Some (fst h)
    ∧ (fst h < FLT_MAX)%Q ∧ snd h = Z.of_nat i.

(** A row that a search can report: its distance to the query is a
    [float32] below [FLT_MAX]. *)
Definition in_reach `{faiss : Faiss} (q x : vec) : Prop :=
  ∃ d, fvec_L2sqr q x = Some d ∧ (d < FLT_MAX)%Q.

(** The dictionary of a retrieval result made from the stored dictionary
    [d]. *)
Definition tagged (d : dict) (distance : Q) (rank : Z) : dict :=
  <["rank" := VInt rank]> (<["similarity_score" := VFloat distance]> d).

(** States reachable by queries: same retriever, and every dictionary of
    the store still there with the same items. *)
Definition frame (st st' : State) : Prop :=
  self st' = self st ∧ store st ⊆ store st'.

(** A retriever that has ingested: an index with one row per stored chunk,
    and every stored chunk a dictionary of the store. *)
Definition Ready (st : State) (ix : IndexFlatL2) : Prop :=
  self_index (self st) = Some ix
  ∧ self_chunks (self st) ≠ []
  ∧ length (xb ix) = length (self_chunks (self st))
  ∧ Forall (fun l => is_Some (store st !! l)) (self_chunks (self st)).

(** What [chunk_texts] returns on a store. *)
Fixpoint texts_of (h : gmap loc dict) (chunks : list loc) : exn + list value :=
  match chunks with
  | [] => inr []
  | c :: chunks =>
      match h !! c with
      | None => inl DanglingRef
      | Some d =>
          match getitem d "text" with
          | inl e => inl e
          | inr t =>
              match texts_of h chunks with
              | inl e => inl e
              | inr ts => inr (t :: ts)
              end
          end
      end
  end.

Section PdfPredicates.
Context `{rt : Runtime}.

(** A page from which nothing is kept: after the three methods its text is
    blank, or blank once cleaned. *)
Definition page_yields_nothing (page : Page) : Prop :=
  ∃ text, page_text page = Some text
          ∧ (truthy (strip text) = false ∨ truthy (clean_text text) = false).

(** What the loop of [process_uploaded_pdfs] records for the file at
    position [file_idx]: the entry [e] appended to [processing_results]
    and the chunks [cs] appended to [all_chunks]. *)
Definition file_outcome (file_idx : Z) (f : UploadedFile)
    (cs : list dict) (e : dict) : Prop :=
  e !! "filename" = Some (VStr (name f))
  ∧ (endswith (str_lower (name f)) (lit ".pdf") = false →
     e = status_entry (name f) "skipped" "Not a PDF file" ∧ cs = [])
  ∧ (endswith (str_lower (name f)) (lit ".pdf") = true → file_size f = 0 →
     e = status_entry (name f) "failed" "Empty file" ∧ cs = [])
  ∧ (e !! "status" = Some (VStr (lit "success")) →
     cs ≠ []
     ∧ e !! "chunks_created" = Some (VInt (Z.of_nat (length cs)))
     ∧ ∀ (j : nat) (c : dict), cs !! j = Some c →
         c !! "filename" = Some (VStr (name f))
         ∧ c !! "chunk_index" = Some (VInt (Z.of_nat j))
         ∧ c !! "file_index" = Some (VInt file_idx))
  ∧ (e !! "status" = Some (VStr (lit "success"))
     ∨ cs = [] ∧ (e !! "status" = Some (VStr (lit "skipped"))
                  ∨ e !! "status" = Some (VStr (lit "failed")))).

End PdfPredicates.

(** The lines of a text dictionary in reading order: those of the blocks
    that have lines. *)
Definition dict_lines (text_dict : TextDict) : list Line :=
  flat_map (fun block => default [] (block_lines block))
           (default [] (dict_blocks text_dict)).

(** A line whose spans hold nothing but whitespace. *)
Definition blank_line (line : Line) : Prop :=
  Forall (fun c => is_space c = true) (line_text line).

#[global] Instance blank_line_dec (line : Line) : Decision (blank_line line) :=
  Forall_dec (fun c => is_space c = true) (line_text line).

(** A chunk record whose fields, where present, have the types of the data
    model: an integer [chunk_index] and a string [text]. *)
Definition well_typed_chunk (chunk : dict) : Prop :=
  (∀ v, chunk !! "chunk_index" = Some v → ∃ n, v = VInt n)
  ∧ (∀ v, chunk !! "text" = Some v → ∃ s, v = VStr s).

(** The string under a key, or the empty string. *)
Definition text_of (chunk : dict) : pystr :=
  match chunk !! "text" with
  | Some (VStr s) => s
  | _ => []
  end.

(** The integer under ["chunk_index"], or 0. *)
Definition index_of (chunk : dict) : Z :=
  match chunk !! "chunk_index" with
  | Some (VInt n) => n
  | _ => 0
  end.

(* ===================================================================== *)
(** * pdf_processing.get_processing_stats *)
(* ===================================================================== *)

(** Python's [==] on the values of the model; an integer equals the float
    of the same value, a string equals no number. *)
Definition py_eqb (a b : value) : bool :=
  match a, b with
  | VStr s, VStr t => bool_decide (s = t)
  | VInt n, VInt m => n =? m
  | VInt n, VFloat q => Qeq_bool (inject_Z n) q
  | VFloat q, VInt n => Qeq_bool q (inject_Z n)
  | VFloat q, VFloat r => Qeq_bool q r
  | _, _ => false
  end.

(** [len(v)] *)
Definition py_len (v : value) : exn + Z :=
  match v with
  | VStr s => inr (Z.of_nat (length s))
  | _ => inl TypeError
  end.

(** [[d[key] for d in ds]] *)
Fixpoint getitems (key : string) (ds : list dict) : exn + list value :=
  match ds with
  | [] => inr []
  | d :: ds =>
      match getitem d key with
      | inl e => inl e
      | inr v =>
          match getitems key ds with
          | inl e => inl e
          | inr vs => inr (v :: vs)
          end
      end
  end.

(** [sum(len(chunk["text"]) for chunk in chunks)]: the generator reads and
    measures one chunk at a time. *)
Fixpoint sum_text_lens (chunks : list dict) : exn + Z :=
  match chunks with
  | [] => inr 0
  | chunk :: chunks =>
      match getitem chunk "text" with
      | inl e => inl e
      | inr v =>
          match py_len v with
          | inl e => inl e
          | inr n =>
              match sum_text_lens chunks with
              | inl e => inl e
              | inr total => inr (n + total)
              end
          end
      end
  end.

(** [set(vs)], as the list of its elements in order of first occurrence. *)
Definition set_add (acc : list value) (v : value) : list value :=
  if existsb (fun k => py_eqb k v) acc then acc else acc ++ [v].

Definition py_set (vs : list value) : list value := foldl set_add [] vs.

(** The two statements of the counting loop on the dictionary [file_stats],
    kept as the list of its items in insertion order:
    [if filename not in file_stats: file_stats[filename] = 0] and
    [file_stats[filename] += 1]. *)
Fixpoint bump (file_stats : list (value * Z)) (filename : value)
  : list (value * Z) :=
  match file_stats with
  | [] => [(filename, 0 + 1)]
  | (k, n) :: rest =>
      if py_eqb k filename then (k, n + 1) :: rest
      else (k, n) :: bump rest filename
  end.

(** The dictionary [get_processing_stats] returns; the last two keys are
    absent from the one returned for an empty list. *)
Record ProcessingStats := {
  total_chunks : Z;
  total_files : Z;
  avg_chunk_length : Q;
  total_characters : option Z;
  file_breakdown : option (list (value * Z))
}.

Section Stats.
(** [round(x, ndigits)] on floats. *)
Variable py_round : Q -> Z -> Q.

Definition get_processing_stats (chunks : list dict) : exn + ProcessingStats :=
  match chunks with
  | [] =>
      inr {| total_chunks := 0; total_files := 0; avg_chunk_length := 0%Q;
             total_characters := None; file_breakdown := None |}
  | _ =>
      let total_chunks := Z.of_nat (length chunks) in
      match getitems "filename" chunks with
      | inl e => inl e
      | inr filenames =>
          let unique_files := Z.of_nat (length (py_set filenames)) in
          match sum_text_lens chunks with
          | inl e => inl e
          | inr total_chars =>
              let avg_chunk_length :=
                if 0 <? total_chunks
                then (inject_Z total_chars / inject_Z total_chunks)%Q
                else 0%Q in
              let file_stats := foldl bump [] filenames in
              inr {| total_chunks := total_chunks;
                     total_files := unique_files;
                     avg_chunk_length := py_round avg_chunk_length 2;
                     total_characters := Some total_chars;
                     file_breakdown := Some file_stats |}
          end
      end
  end.

End Stats.

(* ===================================================================== *)
(** * embedding_retrieval.format_retrieved_chunks *)
(* ===================================================================== *)

Section Formatting.
Context `{rt : Runtime}.

(** The string appended to [formatted_parts] for the chunk numbered [i]. *)
Definition formatted_part (i : Z) (chunk : dict) : exn + pystr :=
  match getitem chunk "filename" with
  | inl e => inl e
  | inr filename =>
      match getitem chunk "chunk_index" with
      | inl e => inl e
      | inr chunk_index =>
          match add_one chunk_index with
          | inl e => inl e
          | inr section =>
              let source_info :=
                lit "[Source: " ++ format_value filename
                ++ lit ", Section " ++ format_value section ++ lit "]" in
              match getitem chunk "text" with
              | inl e => inl e
              | inr chunk_text =>
                  inr (lit "Context " ++ str_of_int i ++ lit ":" ++ nl
                       ++ source_info ++ nl
                       ++ format_value chunk_text ++ nl)
              end
          end
      end
  end.

(** The loop over [enumerate(chunks, 1)], entered at number [i]. *)
Fixpoint formatted_parts (i : Z) (chunks : list dict) : exn + list pystr :=
  match chunks with
  | [] => inr []
  | chunk :: chunks =>
      match formatted_part i chunk with
      | inl e => inl e
      | inr part =>
          match formatted_parts (i + 1) chunks with
          | inl e => inl e
          | inr parts => inr (part :: parts)
          end
      end
  end.

Definition format_retrieved_chunks (chunks : list dict) : exn + pystr :=
  match chunks with
  | [] => inr []
  | _ =>
      match formatted_parts 1 chunks with
      | inl e => inl e
      | inr parts => inr (join nl parts)
      end
  end.

End Formatting.

(* ===================================================================== *)
(** * embedding_retrieval.EmbeddingRetriever.get_retrieval_stats *)
(* ===================================================================== *)

(** The dictionary [get_retrieval_stats] returns. *)
Record RetrievalStats := {
  stats_model_name : pystr;
  stats_total_chunks : Z;
  stats_index_built : bool;
  stats_embedding_dimension : option Z;
  stats_index_size : Z
}.

(** [embeddings.shape[1]]: the length of the rows; an array without rows is
    the one-dimensional [np.array([])], which has no second axis. *)
Definition shape1 (m : matrix) : exn + Z :=
  match m with
  | [] => inl IndexError
  | row :: _ => inr (Z.of_nat (length row))
  end.

Definition get_retrieval_stats : M RetrievalStats :=
  r <- get_self ;;
  embedding_dimension <-
    match self_embeddings r with
    | None => ret None
    | Some m => d <- lift (shape1 m) ;; ret (Some d)
    end ;;
  let index_size :=
    match self_index r with
    | None => 0
    | Some ix => ntotal ix
    end in
  ret {| stats_model_name := self_model_name r;
         stats_total_chunks := Z.of_nat (length (self_chunks r));
         stats_index_built :=
           match self_index r with Some _ => true | None => false end;
         stats_embedding_dimension := embedding_dimension;
         stats_index_size := index_size |}.

(* ===================================================================== *)
(** * Further predicates used in the statements *)
(* ===================================================================== *)

(** The words of the [i]-th window of [chunk_text]. *)
Definition window (words : list pystr) (chunk_size overlap : Z) (i : nat)
  : list pystr :=
  py_slice words (Z.of_nat i * (chunk_size - overlap))
                 (Z.of_nat i * (chunk_size - overlap) + chunk_size).

(** A chunk record as [process_uploaded_pdfs] makes them: the keys the
    retrieval functions read, with a string [filename], an integer
    [chunk_index] and a string [text]. *)
Definition chunk_record (d : dict) : Prop :=
  (∃ s, d !! "filename" = Some (VStr s))
  ∧ (∃ n, d !! "chunk_index" = Some (VInt n))
  ∧ (∃ s, d !! "text" = Some (VStr s)).

(** The pair that identifies a chunk in a batch. *)
Definition chunk_key (d : dict) : option value * option value :=
  (d !! "file_index", d !! "chunk_index").

(* ===================================================================== *)
(** * A small retriever for the examples *)
(* ===================================================================== *)

(** Squared Euclidean distance in exact arithmetic. *)
Definition sq_l2 (x y : vec) : Q :=
  foldr Qplus 0%Q (zip_with (fun a b => (a - b) * (a - b))%Q x y).

(** A distance kernel for the examples: the exact distance when it is
    below [FLT_MAX], and no finite result otherwise. On the whole numbers
    of the examples [float32] arithmetic is exact too. *)
Definition demo_faiss : Faiss :=
  {| fvec_L2sqr := fun x y =>
       if Qle_bool FLT_MAX (sq_l2 x y) then None else Some (sq_l2 x y) |}.

(** An embedding model for the examples: a text is mapped to the vector of
    its length and its number of words; batches of more than two texts, and
    anything that is not a string, make the call raise. *)
Definition demo_embed (v : value) : option vec :=
  match v with
  | VStr s => Some [inject_Z (Z.of_nat (length s));
                    inject_Z (Z.of_nat (length (split s)))]
  | _ => None
  end.

Definition demo_model (texts : list value) : option matrix :=
  if (2 <? length texts)%nat then None else mapM demo_embed texts.

Definition demo_chunk (chunk_index : Z) (text : string) : dict :=
  {[ "filename" := VStr (lit "notes.pdf");
     "chunk_index" := VInt chunk_index;
     "text" := VStr (lit text) ]}.

Definition demo_store : gmap loc dict :=
  {[ 0%nat := demo_chunk 0 "alpha beta";
     1%nat := demo_chunk 1 "gamma";
     2%nat := demo_chunk 0 "delta";
     3%nat := demo_chunk 1 "epsilon zeta eta";
     4%nat := demo_chunk 2 "theta" ]}.

(** A freshly constructed retriever. *)
Definition demo_empty : State :=
  {| self := new_retriever (lit "all-MiniLM-L6-v2") demo_model;
     store := demo_store;
     encode_calls := [] |}.

(** The retriever after ingesting the chunks at locations 0 and 1. *)
Definition demo_ready : State := snd (ingest [0%nat; 1%nat] demo_empty).

Definition demo_index : IndexFlatL2 :=
  {| dim := 2; xb := [[10%Q; 2%Q]; [5%Q; 1%Q]] |}.

(** The ["text"] items of the dictionaries at the given locations. *)
Definition texts_at (st : State) (ls : list loc) : list (option value) :=
  map (fun l => store st !! l ≫= fun d : dict => d !! "text") ls.

(** A ready retriever whose second row is so far from every query of the
    examples that its [float32] distance overflows. *)
Definition far_index : IndexFlatL2 :=
  {| dim := 2; xb := [[10%Q; 2%Q]; [inject_Z (2 ^ 64); 0%Q]] |}.

Definition demo_far : State :=
  {| self := set_index (Some far_index)
               (set_chunks [0%nat; 1%nat]
                  (new_retriever (lit "all-MiniLM-L6-v2") demo_model));
     store := demo_store;
     encode_calls := [] |}.

(* ===================================================================== *)
(** * Library functions and files for the examples *)
(* ===================================================================== *)

Definition ascii_lower (c : N) : N :=
  if ((65 <=? c) && (c <=? 90))%N then (c + 32)%N else c.

Definition blank_page : Page :=
  {| text_layer := lit "  ";
     dict_layer := {| dict_blocks := Some [{| block_lines := None |}] |};
     blocks_layer := [] |}.

Definition hello_page : Page :=
  {| text_layer := lit "Hello world";
     dict_layer := {| dict_blocks := None |};
     blocks_layer := [] |}.

(** A stand-in for PyMuPDF: bytes starting with [%] are a document of one
    page of text, bytes starting with a zero byte a document of two pages
    without any text, everything else is rejected. *)
Definition demo_fitz_open (bytes : list Byte.byte) : option (list Page) :=
  match bytes with
  | Byte.x25 :: _ => Some [hello_page]
  | Byte.x00 :: _ => Some [blank_page; blank_page]
  | _ => None
  end.

(** A regular-expression engine that never finds a match, ASCII
    lower-casing, and a fixed rendering of floats. *)
Definition demo_runtime : Runtime :=
  {| re_sub := fun _ _ _ text => text;
     str_lower := map ascii_lower;
     fitz_open := demo_fitz_open;
     float_str := fun _ => lit "0.0" |}.

Definition notes_txt : UploadedFile :=
  {| name := lit "notes.txt"; size := Some 12; content := [Byte.x41] |}.

Definition empty_pdf : UploadedFile :=
  {| name := lit "empty.pdf"; size := None; content := [] |}.

Definition hello_pdf : UploadedFile :=
  {| name := lit "Hello.PDF"; size := Some 1; content := [Byte.x25] |}.

Definition scanned_pdf : UploadedFile :=
  {| name := lit "scan.pdf"; size := Some 1; content := [Byte.x00] |}.

(** A text dictionary of four blocks: one without lines, one of a line of
    three spans and a line without spans, one of a blank line, and one of a
    single word. *)
Definition demo_text_dict : TextDict :=
  {| dict_blocks := Some
       [ {| block_lines := None |};
         {| block_lines := Some
              [ {| line_spans := Some [ {| span_text := Some (lit " Hello") |};
                                        {| span_text := None |};
                                        {| span_text := Some (lit " world ") |} ] |};
                {| line_spans := None |} ] |};
         {| block_lines := Some
              [ {| line_spans := Some [ {| span_text := Some (lit "  ") |} ] |} ] |};
         {| block_lines := Some
              [ {| line_spans := Some [ {| span_text := Some (lit "Bye") |} ] |} ] |} ] |}.

(* ===================================================================== *)
(** * Further definitions used in the statements and examples *)
(* ===================================================================== *)

(** Parts that are not empty and are stripped on both sides. *)
Definition solid (p : pystr) : Prop :=
  p ≠ [] ∧ lstrip p = p ∧ lstrip (rev p) = rev p.

(** The string under ["filename"], or the empty string. *)
Definition filename_of (chunk : dict) : pystr :=
  match chunk !! "filename" with
  | Some (VStr s) => s
  | _ => []
  end.

(** The sum of the counts of a file breakdown. *)
Definition sum_counts (file_stats : list (value * Z)) : Z :=
  foldr Z.add 0 (map snd file_stats).

(** The block written for the chunk numbered [i]. *)
Definition context_block (i : Z) (chunk : dict) : pystr :=
  lit "Context " ++ str_of_int i ++ lit ":" ++ nl
  ++ (lit "[Source: " ++ filename_of chunk ++ lit ", Section "
      ++ str_of_int (index_of chunk + 1) ++ lit "]") ++ nl
  ++ text_of chunk ++ nl.

(** The retriever after a successful ingestion of [chunks] embedded as
    [m]. *)
Definition ingested (r : Retriever) (chunks : list loc) (m : matrix) : Retriever :=
  {| self_model_name := self_model_name r;
     self_model := self_model r;
     self_index := Some {| dim := length (hd [] m); xb := m |};
     self_chunks := chunks;
     self_embeddings := Some m |}.

(** A file named as a PDF that the stand-in for PyMuPDF rejects. *)
Definition broken_pdf : UploadedFile :=
  {| name := lit "broken.pdf"; size := Some 3; content := [Byte.x41] |}.

(** A fresh retriever over a store whose second dictionary has no text. *)
Definition demo_no_text : State :=
  {| self := new_retriever (lit "all-MiniLM-L6-v2") demo_model;
     store := {[ 0%nat := demo_chunk 0 "alpha beta"; 1%nat := ∅ ]};
     encode_calls := [] |}.

(** A retriever with chunks and an index whose model always raises. *)
Definition demo_failing : State :=
  {| self := set_index (Some demo_index)
               (set_chunks [0%nat; 1%nat]
                  (new_retriever (lit "all-MiniLM-L6-v2") (fun _ => None)));
     store := demo_store;
     encode_calls := [] |}.



(* ===================================================================== *)
(** * Strings: stripping, splitting, joining *)
(* ===================================================================== *)


Lemma elem_of_rev_iff {A} (x : A) (l : list A) : x ∈ rev l ↔ x ∈ l.
Proof. rewrite !list_elem_of_In. symmetry. apply in_rev. Qed.

Lemma lstrip_keeps (c : N) (s : pystr) :
  c ∈ s → is_space c = false → c ∈ lstrip s.
Proof.
  induction s as [|a s IH]; intros Hin Hc; simpl.
  - exact Hin.
  - destruct (is_space a) eqn:Ha.
    + apply IH; [|exact Hc].
      apply elem_of_cons in Hin as [->|Hin]; [congruence | exact Hin].
    + exact Hin.
Qed.

Lemma strip_keeps (c : N) (s : pystr) :
  c ∈ s → is_space c = false → c ∈ strip s.
Proof.
  intros Hin Hc. unfold strip, rstrip.
  rewrite elem_of_rev_iff. apply lstrip_keeps; [|exact Hc].
  rewrite elem_of_rev_iff. by apply lstrip_keeps.
Qed.

Lemma lstrip_spaces (s : pystr) :
  Forall (fun c => is_space c = true) s → lstrip s = [].
Proof.
  induction 1 as [|c s Hc _ IH]; simpl; [done|]. by rewrite Hc.
Qed.

Lemma strip_spaces (s : pystr) :
  Forall (fun c => is_space c = true) s → strip s = [].
Proof. intros H. unfold strip. by rewrite (lstrip_spaces s H). Qed.

Lemma lstrip_nil_inv (s : pystr) :
  lstrip s = [] → Forall (fun c => is_space c = true) s.
Proof.
  induction s as [|c s IH]; simpl; [constructor|].
  destruct (is_space c) eqn:Hc; [|discriminate].
  intros H. constructor; auto.
Qed.

Lemma strip_nil_inv (s : pystr) :
  strip s = [] → Forall (fun c => is_space c = true) s.
Proof.
  unfold strip, rstrip. intros H.
  destruct (lstrip s) as [|c t] eqn:E; [by apply lstrip_nil_inv|].
  exfalso.
  assert (Hc : is_space c = false).
  { clear H. induction s as [|a s IH]; simpl in E; [discriminate|].
    destruct (is_space a) eqn:Ha; [auto | congruence]. }
  assert (Hin : c ∈ rev (lstrip (rev (c :: t)))).
  { rewrite elem_of_rev_iff. apply lstrip_keeps; [|exact Hc].
    rewrite elem_of_rev_iff. left. }
  rewrite H in Hin. by apply elem_of_nil in Hin.
Qed.

Lemma split_aux_words (s cur : pystr) :
  Forall (fun c => is_space c = false) cur →
  Forall word_ok (split_aux cur s).
Proof.
  revert cur. induction s as [|c s IH]; intros cur Hcur; simpl.
  - destruct cur as [|a cur]; [constructor|].
    constructor; [|constructor]. split.
    + intros E. apply (f_equal (@length N)) in E.
      rewrite length_rev in E. discriminate.
    + by apply Forall_rev.
  - destruct (is_space c) eqn:Hc.
    + destruct cur as [|a cur]; [apply IH; constructor|].
      constructor; [|apply IH; constructor]. split.
      * intros E. apply (f_equal (@length N)) in E.
        rewrite length_rev in E. discriminate.
      * by apply Forall_rev.
    + apply IH. by constructor.
Qed.

Lemma split_words (s : pystr) : Forall word_ok (split s).
Proof. apply split_aux_words. constructor. Qed.

Lemma strip_join_words (sep : pystr) (ws : list pystr) :
  ws ≠ [] → Forall word_ok ws → truthy (strip (join sep ws)) = true.
Proof.
  intros Hne Hws. destruct ws as [|w ws]; [done|].
  apply Forall_cons in Hws as [[Hw Hsp] _].
  destruct w as [|c w]; [done|].
  apply Forall_cons in Hsp as [Hc _].
  assert (Hin : c ∈ strip (join sep ((c :: w) :: ws))).
  { apply strip_keeps; [|exact Hc].
    destruct ws; simpl; left. }
  destruct (strip _); [by apply elem_of_nil in Hin | done].
Qed.

(** A slice inside the bounds is a [take] of a [drop]. *)
Lemma py_slice_inside {A} (l : list A) (a b : Z) :
  0 ≤ a ≤ b → b ≤ Z.of_nat (length l) →
  py_slice l a b = take (Z.to_nat (b - a)) (drop (Z.to_nat a) l).
Proof.
  intros Ha Hb. unfold py_slice, clamp_index.
  destruct (Z.ltb_spec a 0); [lia|]. destruct (Z.ltb_spec b 0); [lia|].
  rewrite !Z.min_l by lia. done.
Qed.

Lemma py_slice_length {A} (l : list A) (a b : Z) :
  0 ≤ a ≤ b → b ≤ Z.of_nat (length l) →
  Z.of_nat (length (py_slice l a b)) = b - a.
Proof.
  intros Ha Hb. rewrite py_slice_inside by done.
  rewrite length_take, length_drop. lia.
Qed.

Lemma py_slice_Forall {A} (P : A → Prop) (l : list A) (a b : Z) :
  Forall P l → Forall P (py_slice l a b).
Proof.
  intros H. unfold py_slice. apply Forall_take, Forall_drop, H.
Qed.

(* ===================================================================== *)
(** * chunk_text *)
(* ===================================================================== *)

(** [ceil_div a b] is the least [n] with [a ≤ n * b]. *)
Lemma ceil_div_spec (a b : Z) :
  0 < b → (ceil_div a b - 1) * b < a ≤ ceil_div a b * b.
Proof.
  intros Hb. unfold ceil_div.
  pose proof (Z.div_mod (a + b - 1) b) as Hdm.
  pose proof (Z.mod_pos_bound (a + b - 1) b Hb) as Hm.
  nia.
Qed.

Lemma ceil_div_one (a b : Z) : 0 < a ≤ b → ceil_div a b = 1.
Proof.
  intros H. unfold ceil_div.
  replace (a + b - 1) with ((a - 1) + 1 * b) by lia.
  rewrite Z.div_add by lia. rewrite Z.div_small by lia. lia.
Qed.

Lemma ceil_div_step (a b : Z) : 0 < b → ceil_div a b = 1 + ceil_div (a - b) b.
Proof.
  intros H. unfold ceil_div.
  replace (a + b - 1) with ((a - b + b - 1) + 1 * b) by lia.
  rewrite Z.div_add by lia. lia.
Qed.

(** With a non-negative overlap smaller than the window, the loop entered at
    a position [start] with [start + overlap < W] appends exactly
    [ceil((W - start - overlap) / (chunk_size - overlap))] chunks. *)
Lemma chunk_loop_count (words : list pystr) (chunk_size overlap : Z) :
  Forall word_ok words → 0 ≤ overlap < chunk_size →
  ∀ (fuel : nat) (start : Z) (chunks : list pystr),
    0 ≤ start → start + overlap < Z.of_nat (length words) →
    (Z.to_nat (Z.of_nat (length words) - start) ≤ fuel)%nat →
    ∃ new,
      chunk_loop fuel words chunk_size overlap start chunks = Some (chunks ++ new)
      ∧ Z.of_nat (length new)
        = ceil_div (Z.of_nat (length words) - start - overlap)
                   (chunk_size - overlap).
Proof.
  intros Hwords HO. set (W := Z.of_nat (length words)).
  induction fuel as [|fuel IH]; intros start chunks Hs Hlt Hfuel; [lia|].
  simpl. fold W.
  destruct (Z.ltb_spec start W) as [_|]; [|lia].
  unfold chunk_body. fold W.
  set (e := Z.min (start + chunk_size) W).
  assert (He : start < e ≤ W) by (unfold e; lia).
  assert (Hchunk : truthy (strip (join (lit " ") (py_slice words start e))) = true).
  { apply strip_join_words; [|by apply py_slice_Forall].
    intros E. apply (f_equal (@length pystr)) in E.
    pose proof (py_slice_length words start e) as Hl.
    rewrite E in Hl. simpl in Hl. unfold W in He. lia. }
  rewrite Hchunk.
  destruct (Z.leb_spec W e) as [Hend|Hend].
  - eexists [_]. split; [reflexivity|].
    simpl. symmetry. apply ceil_div_one. unfold e in Hend. lia.
  - assert (Ee : e = start + chunk_size) by (unfold e; lia).
    destruct (Z.leb_spec (e - overlap) 0) as [|_]; [lia|].
    destruct (IH (e - overlap) (chunks ++ [strip (join (lit " ") (py_slice words start e))]))
      as (new & Hrun & Hlen); [lia | lia | lia |].
    eexists (_ :: new). split.
    + rewrite Hrun. by rewrite <- app_assoc.
    + rewrite (ceil_div_step (W - start - overlap)) by lia.
      simpl length. rewrite Nat2Z.inj_succ, Hlen.
      replace (W - (e - overlap) - overlap) with (W - start - overlap - (chunk_size - overlap)) by lia.
      lia.
Qed.

(** [chunk_text] with a non-negative overlap smaller than the window. *)
Lemma chunk_text_runs (text : pystr) (chunk_size overlap : Z) (fuel : nat) :
  text ≠ [] → 0 ≤ overlap < chunk_size →
  (length (split text) ≤ fuel)%nat →
  ∃ chunks,
    chunk_text fuel text chunk_size overlap = Some chunks
    ∧ (Z.of_nat (length (split text)) ≤ chunk_size → chunks = [text])
    ∧ (chunk_size < Z.of_nat (length (split text)) →
       Z.of_nat (length chunks)
       = ceil_div (Z.of_nat (length (split text)) - overlap)
                  (chunk_size - overlap)).
Proof.
  intros Hne HO Hfuel. unfold chunk_text.
  destruct text as [|c text]; [done|]. simpl negb. cbv iota.
  destruct (Z.leb_spec (Z.of_nat (length (split (c :: text)))) chunk_size) as [Hle|Hgt].
  - eexists. split; [reflexivity|]. split; [done | lia].
  - destruct (chunk_loop_count (split (c :: text)) chunk_size overlap
                (split_words _) HO fuel 0 []) as (new & Hrun & Hlen);
      [lia | lia | lia |].
    exists new. split; [exact Hrun|]. split; [lia|].
    intros _. rewrite Hlen. f_equal. lia.
Qed.

(** C5. For a non-empty text of [W] words and a word overlap [O] with
    [0 ≤ O < S], [chunk_text] returns (given fuel for [W] passes of the
    loop) the text itself as its only chunk when [W ≤ S], and
    [ceil((W − O) / (S − O))] chunks when [W > S]. *)
Theorem chunk_text_count (text : pystr) (chunk_size overlap : Z) (fuel : nat) :
  text ≠ [] → 0 ≤ overlap < chunk_size →
  (length (split text) ≤ fuel)%nat →
  ∃ chunks,
    chunk_text fuel text chunk_size overlap = Some chunks
    ∧ (Z.of_nat (length (split text)) ≤ chunk_size → chunks = [text])
    ∧ (chunk_size < Z.of_nat (length (split text)) →
       Z.of_nat (length chunks)
       = ceil_div (Z.of_nat (length (split text)) - overlap)
                  (chunk_size - overlap)).
Proof. apply chunk_text_runs. Qed.

Lemma chunk_text_count_witness :
  ∃ chunks,
    chunk_text 7 (lit "a b c d e f g") 3 1 = Some chunks
    ∧ (Z.of_nat (length (split (lit "a b c d e f g"))) ≤ 3 → chunks = [lit "a b c d e f g"])
    ∧ (3 < Z.of_nat (length (split (lit "a b c d e f g"))) →
       Z.of_nat (length chunks)
       = ceil_div (Z.of_nat (length (split (lit "a b c d e f g"))) - 1) (3 - 1)).
Proof.
  apply (chunk_text_count (lit "a b c d e f g") 3 1 7).
  - discriminate.
  - lia.
  - vm_compute. lia.
Defined.

(** The overlap edge case of the test scenarios: 1000 words, windows of
    500 words overlapping by 499, give 501 chunks. *)
Example chunk_text_overlap_499 :
  ∃ chunks,
    chunk_text 1000 (concat (replicate 1000 (lit "w "))) 500 499 = Some chunks
    ∧ length chunks = 501%nat.
Proof.
  destruct (chunk_text_runs (concat (replicate 1000 (lit "w "))) 500 499 1000)
    as (chunks & Hrun & _ & Hcount).
  - discriminate.
  - lia.
  - vm_compute. lia.
  - exists chunks. split; [exact Hrun|].
    assert (Hw : Z.of_nat (length (split (concat (replicate 1000 (lit "w "))))) = 1000)
      by (vm_compute; reflexivity).
    rewrite Hw in Hcount. specialize (Hcount ltac:(lia)).
    change (ceil_div (1000 - 499) (500 - 499)) with 501 in Hcount. lia.
Qed.

(** With an overlap equal to the window, a window that starts after the
    first one and ends before the last word is followed by a window at the
    same start: the guard [start <= 0] does not see it. *)
Lemma chunk_body_no_progress (words : list pystr) (chunk_size start : Z)
    (chunks : list pystr) :
  0 < start → start + chunk_size < Z.of_nat (length words) →
  ∃ chunks', chunk_body words chunk_size chunk_size start chunks
             = Continue start chunks'.
Proof.
  intros Hs Hend. unfold chunk_body.
  rewrite Z.min_l by lia.
  destruct (Z.leb_spec (Z.of_nat (length words)) (start + chunk_size)); [lia|].
  replace (start + chunk_size - chunk_size) with start by lia.
  destruct (Z.leb_spec start 0); [lia|].
  eexists. reflexivity.
Qed.

Lemma chunk_loop_no_progress (words : list pystr) (chunk_size start : Z) :
  0 ≤ chunk_size →
  0 < start → start + chunk_size < Z.of_nat (length words) →
  ∀ (fuel : nat) (chunks : list pystr),
    chunk_loop fuel words chunk_size chunk_size start chunks = None.
Proof.
  intros HS Hs Hend. induction fuel as [|fuel IH]; intros chunks; [done|].
  cbn [chunk_loop]. destruct (Z.ltb_spec start (Z.of_nat (length words))); [|lia].
  destruct (chunk_body_no_progress words chunk_size start chunks Hs Hend)
    as [chunks' ->].
  apply IH.
Qed.

(** Every text of more than [2 * chunk_size] words makes [chunk_text] with
    [overlap = chunk_size ≥ 1] run forever. *)
Lemma chunk_text_overlap_eq_size_never_returns (text : pystr) (chunk_size : Z)
    (fuel : nat) :
  1 ≤ chunk_size → 2 * chunk_size < Z.of_nat (length (split text)) →
  chunk_text fuel text chunk_size chunk_size = None.
Proof.
  intros HS HW. unfold chunk_text.
  destruct text as [|c text]; [simpl in HW; lia|]. simpl negb. cbv iota.
  set (words := split (c :: text)) in *.
  destruct (Z.leb_spec (Z.of_nat (length words)) chunk_size); [lia|].
  destruct fuel as [|fuel]; [done|]. cbn [chunk_loop].
  destruct (Z.ltb_spec 0 (Z.of_nat (length words))); [|lia].
  unfold chunk_body. rewrite Z.add_0_l, Z.min_l by lia.
  destruct (Z.leb_spec (Z.of_nat (length words)) chunk_size); [lia|].
  rewrite Z.sub_diag. change (0 <=? 0) with true. cbv iota.
  apply chunk_loop_no_progress; lia.
Qed.

(** The loop of [chunk_text "a b c" 1 1] once [start] has been forced to
    the end of the first window: the next position is the same. *)
Lemma chunk_body_stuck (chunks : list pystr) :
  chunk_body (split (lit "a b c")) 1 1 1 chunks
  = Continue 1 (chunks ++ [lit "b"]).
Proof. reflexivity. Qed.

Lemma chunk_loop_stuck (fuel : nat) (chunks : list pystr) :
  chunk_loop fuel (split (lit "a b c")) 1 1 1 chunks = None.
Proof.
  revert chunks. induction fuel as [|fuel IH]; intros chunks; [done|].
  change (chunk_loop (S fuel) (split (lit "a b c")) 1 1 1 chunks)
    with (match chunk_body (split (lit "a b c")) 1 1 1 chunks with
          | Break chunks => Some chunks
          | Continue start chunks => chunk_loop fuel (split (lit "a b c")) 1 1 start chunks
          end).
  rewrite chunk_body_stuck. apply IH.
Qed.

(** C4. With [chunk_size = overlap = 1] and the three-word text ["a b c"]
    the loop never ends: whatever the fuel, [chunk_text] does not return.
    The guard only fires when the next start is [≤ 0]; from the second
    window on the start stays at 1. *)
Theorem chunk_text_overlap_eq_size_diverges (fuel : nat) :
  chunk_text fuel (lit "a b c") 1 1 = None.
Proof.
  destruct fuel as [|fuel]; [reflexivity|].
  change (chunk_text (S fuel) (lit "a b c") 1 1)
    with (chunk_loop fuel (split (lit "a b c")) 1 1 1 ([] ++ [lit "a"])).
  apply chunk_loop_stuck.
Qed.

(* ===================================================================== *)
(** * Extraction and the batch processor *)
(* ===================================================================== *)

Section PdfTheorems.
Context `{rt : Runtime}.

Lemma extract_pages_nothing (pages : list Page) :
  Forall page_yields_nothing pages → extract_pages pages = Some [].
Proof.
  induction 1 as [|page pages (text & Htext & Hblank) _ IH]; simpl; [done|].
  rewrite Htext, IH.
  destruct (truthy (strip text)); [|done].
  destruct Hblank as [?|Hclean]; [done|]. by rewrite Hclean.
Qed.

Lemma extract_text_scanned (f : UploadedFile) (pages : list Page) :
  content f ≠ [] → fitz_open (content f) = Some pages →
  Forall page_yields_nothing pages →
  extract_text_from_pdf f = no_text_message.
Proof.
  intros Hne Hopen Hpages. unfold extract_text_from_pdf.
  destruct (content f) as [|b bytes] eqn:E; [done|].
  simpl Nat.eqb. cbv iota. rewrite Hopen.
  by rewrite (extract_pages_nothing pages Hpages).
Qed.

Lemma chunk_text_no_text_message (fuel : nat) :
  chunk_text fuel no_text_message 500 100 = Some [no_text_message].
Proof. reflexivity. Qed.

(** C2. A PDF all of whose pages yield no text makes the extractor return
    the fixed message, which is not empty; the batch processor then takes
    the message for the text of the document: the file gets the status
    ["success"] and the message becomes its one chunk. *)
Theorem scanned_pdf_marked_success (f : UploadedFile) (pages : list Page)
    (fuel : nat) (file_idx : Z) :
  endswith (str_lower (name f)) (lit ".pdf") = true →
  file_size f ≠ 0 →
  content f ≠ [] →
  fitz_open (content f) = Some pages →
  Forall page_yields_nothing pages →
  extract_text_from_pdf f = no_text_message
  ∧ no_text_message ≠ []
  ∧ process_file fuel file_idx f
    = Some ([chunk_data (name f) 0 no_text_message file_idx 131],
            success_entry (name f) 1 131)
  ∧ success_entry (name f) 1 131 !! "status" = Some (VStr (lit "success"))
  ∧ success_entry (name f) 1 131 !! "reason" = None.
Proof.
  intros Hpdf Hsize Hne Hopen Hpages.
  pose proof (extract_text_scanned f pages Hne Hopen Hpages) as Htext.
  split; [exact Htext|]. split; [done|]. split; [|split; reflexivity].
  unfold process_file. rewrite Hpdf. simpl negb. cbv iota.
  destruct (Z.eqb_spec (file_size f) 0); [done|].
  rewrite Htext.
  change (negb (truthy no_text_message) || (len (strip no_text_message) =? 0))
    with false. cbv iota.
  rewrite chunk_text_no_text_message. reflexivity.
Qed.

(** The status entries of the three kinds. *)
Lemma status_entry_lookup (filename : pystr) (status reason : string) :
  status_entry filename status reason !! "filename" = Some (VStr filename)
  ∧ status_entry filename status reason !! "status" = Some (VStr (lit status)).
Proof. split; reflexivity. Qed.

Lemma file_outcome_no_chunks (file_idx : Z) (f : UploadedFile)
    (status reason : string) :
  (status = "skipped" ∧ reason = "Not a PDF file"
     ∧ endswith (str_lower (name f)) (lit ".pdf") = false)
  ∨ (status = "failed"
     ∧ endswith (str_lower (name f)) (lit ".pdf") = true
     ∧ (file_size f = 0 → reason = "Empty file")) →
  file_outcome file_idx f [] (status_entry (name f) status reason).
Proof.
  intros H. unfold file_outcome.
  destruct (status_entry_lookup (name f) status reason) as [Hname Hstatus].
  split; [exact Hname|].
  split.
  { intros Hno. destruct H as [(-> & -> & _)|(_ & Hpdf & _)]; [done | congruence]. }
  split.
  { intros Hpdf Hzero. destruct H as [(_ & _ & Hno)|(-> & _ & Hr)]; [congruence|].
    by rewrite (Hr Hzero). }
  rewrite Hstatus. split.
  { intros [= Hs]. destruct H as [(-> & _)|(-> & _)]; discriminate Hs. }
  right. split; [done|].
  destruct H as [(-> & _)|(-> & _)]; [by left | by right].
Qed.

Lemma file_outcome_success (file_idx : Z) (f : UploadedFile)
    (chunks : list pystr) (text_length : Z) :
  chunks ≠ [] →
  endswith (str_lower (name f)) (lit ".pdf") = true → file_size f ≠ 0 →
  file_outcome file_idx f
    (imap (fun chunk_idx chunk =>
             chunk_data (name f) (Z.of_nat chunk_idx) chunk file_idx text_length)
          chunks)
    (success_entry (name f) (Z.of_nat (length chunks)) text_length).
Proof.
  intros Hne Hpdf Hsize. unfold file_outcome.
  split; [reflexivity|].
  split; [intros; congruence|].
  split; [intros; congruence|].
  split; [|by left].
  intros _. split.
  { intros E. apply (f_equal (@length dict)) in E.
    rewrite length_imap in E. by destruct chunks. }
  split; [by rewrite length_imap|].
  intros j c Hc. rewrite list_lookup_imap in Hc.
  destruct (chunks !! j) as [chunk|]; [|done].
  simpl in Hc. injection Hc as <-. repeat split; reflexivity.
Qed.

(** One file: with fuel for its chunking the body of the loop completes
    and records an outcome of one of the kinds. *)
Lemma process_file_outcome (fuel : nat) (file_idx : Z) (f : UploadedFile) :
  (length (split (extract_text_from_pdf f)) ≤ fuel)%nat →
  ∃ cs e, process_file fuel file_idx f = Some (cs, e)
          ∧ file_outcome file_idx f cs e.
Proof.
  intros Hfuel. unfold process_file.
  destruct (endswith (str_lower (name f)) (lit ".pdf")) eqn:Hpdf; simpl negb; cbv iota.
  2:{ eexists _, _. split; [reflexivity|].
      apply file_outcome_no_chunks. by left. }
  destruct (Z.eqb_spec (file_size f) 0) as [Hzero|Hsize].
  { eexists _, _. split; [reflexivity|].
    apply file_outcome_no_chunks. right. done. }
  set (text := extract_text_from_pdf f) in *.
  destruct (negb (truthy text) || (len (strip text) =? 0)) eqn:Hblank.
  { eexists _, _. split; [reflexivity|].
    apply file_outcome_no_chunks. right. split; [done|]. split; [done|].
    intros; congruence. }
  assert (Htext : text ≠ []).
  { intros E. rewrite E in Hblank. discriminate. }
  destruct (chunk_text_runs text 500 100 fuel Htext) as (chunks & -> & _);
    [lia | exact Hfuel |].
  destruct chunks as [|chunk chunks].
  { eexists _, _. split; [reflexivity|].
    apply file_outcome_no_chunks. right. split; [done|]. split; [done|].
    intros; congruence. }
  eexists _, _. split; [reflexivity|].
  by apply file_outcome_success.
Qed.

(** The loop over the files appends, file by file, what [process_file]
    gives for the file at its position. *)
Lemma process_loop_spec (fuel : nat) (files : list UploadedFile) :
  Forall (fun f => (length (split (extract_text_from_pdf f)) ≤ fuel)%nat) files →
  ∀ (file_idx : Z) (all_chunks processing_results : list dict),
    ∃ (per_file : list (list dict)) (entries : list dict),
      process_loop fuel file_idx files all_chunks processing_results
      = Some (all_chunks ++ concat per_file, processing_results ++ entries)
      ∧ length entries = length files
      ∧ ∀ (i : nat) (f : UploadedFile), files !! i = Some f →
          ∃ cs e, per_file !! i = Some cs ∧ entries !! i = Some e
                  ∧ process_file fuel (file_idx + Z.of_nat i) f = Some (cs, e)
                  ∧ file_outcome (file_idx + Z.of_nat i) f cs e.
Proof.
  induction 1 as [|f files Hf _ IH]; intros file_idx all_chunks results.
  - exists [], []. simpl. rewrite !app_nil_r. split; [done|]. split; [done|].
    intros i f Hi. by rewrite lookup_nil in Hi.
  - destruct (process_file_outcome fuel file_idx f Hf) as (cs & e & Hrun & Hout).
    destruct (IH (file_idx + 1) (all_chunks ++ cs) (results ++ [e]))
      as (per_file & entries & Hloop & Hlen & Heach).
    exists (cs :: per_file), (e :: entries).
    split.
    { simpl. rewrite Hrun, Hloop. by rewrite <- !app_assoc. }
    split; [simpl; congruence|].
    intros [|i] f' Hi; simpl in Hi.
    + injection Hi as <-. exists cs, e.
      rewrite Z.add_0_r. done.
    + destruct (Heach i f' Hi) as (cs' & e' & H1 & H2 & H3 & H4).
      exists cs', e'.
      replace (file_idx + Z.of_nat (S i)) with (file_idx + 1 + Z.of_nat i) by lia.
      done.
Qed.

(** There is always fuel for a batch. *)
Lemma enough_fuel (files : list UploadedFile) :
  ∃ fuel,
    Forall (fun f => (length (split (extract_text_from_pdf f)) ≤ fuel)%nat) files.
Proof.
  induction files as [|f files [fuel IH]].
  - exists 0%nat. constructor.
  - exists (Nat.max (length (split (extract_text_from_pdf f))) fuel).
    constructor; [lia|].
    eapply Forall_impl; [exact IH|]. simpl. lia.
Qed.

(** C3, as the code has it. With fuel for the chunking of every file the
    function returns: it raises for no file. Its loop records one status
    entry per input file, in order, in [processing_results], of the kind
    the file calls for; the value returned is the list of chunks alone,
    made of the chunks of each file in turn, and what a file contributes
    does not depend on the other files. *)
Theorem process_uploaded_pdfs_statuses (fuel : nat) (files : list UploadedFile) :
  Forall (fun f => (length (split (extract_text_from_pdf f)) ≤ fuel)%nat) files →
  ∃ (per_file : list (list dict)) (processing_results : list dict),
    process_loop fuel 0 files [] [] = Some (concat per_file, processing_results)
    ∧ process_uploaded_pdfs fuel files = Some (concat per_file)
    ∧ length processing_results = length files
    ∧ ∀ (i : nat) (f : UploadedFile), files !! i = Some f →
        ∃ cs e, per_file !! i = Some cs ∧ processing_results !! i = Some e
                ∧ process_file fuel (Z.of_nat i) f = Some (cs, e)
                ∧ file_outcome (Z.of_nat i) f cs e.
Proof.
  intros Hfuel.
  destruct (process_loop_spec fuel files Hfuel 0 [] [])
    as (per_file & entries & Hloop & Hlen & Heach).
  exists per_file, entries. simpl in Hloop.
  split; [exact Hloop|].
  split; [unfold process_uploaded_pdfs; by rewrite Hloop|].
  split; [exact Hlen|].
  intros i f Hi. destruct (Heach i f Hi) as (cs & e & H).
  exists cs, e. by rewrite Z.add_0_l in H.
Qed.

(* ===================================================================== *)
(** * get_chunk_sources *)
(* ===================================================================== *)

Lemma chunk_source_well_typed (chunk : dict) :
  well_typed_chunk chunk →
  chunk_source chunk
  = inr {[ "filename" := dict_get chunk "filename" (VStr (lit "Unknown"));
           "section" := VStr (lit "Section " ++ str_of_int (index_of chunk + 1));
           "preview" :=
             VStr (if 200 <? len (text_of chunk)
                   then take 200 (text_of chunk) ++ lit "..."
                   else text_of chunk) ]}.
Proof.
  intros [Hidx Htext]. unfold chunk_source, dict_get, index_of, text_of.
  destruct (chunk !! "chunk_index") as [v|] eqn:Ei.
  - destruct (Hidx v eq_refl) as [n ->]. simpl.
    destruct (chunk !! "text") as [t|] eqn:Et.
    + destruct (Htext t eq_refl) as [s ->]. simpl.
      destruct (Z.ltb_spec 200 (len s)) as [Hlong|Hshort]; [|done].
      unfold len in Hlong. rewrite py_slice_inside by lia. done.
    + done.
  - simpl. destruct (chunk !! "text") as [t|] eqn:Et.
    + destruct (Htext t eq_refl) as [s ->]. simpl.
      destruct (Z.ltb_spec 200 (len s)) as [Hlong|Hshort]; [|done].
      unfold len in Hlong. rewrite py_slice_inside by lia. done.
    + done.
Qed.

(** C10. On chunk records whose [chunk_index] and [text], where present,
    are an integer and a string, [get_chunk_sources] raises nothing and
    returns one source per record, in order: the record's filename or
    ["Unknown"], ["Section n+1"] for chunk index [n] and ["Section 1"]
    without one, and as preview the text itself up to 200 code points, its
    first 200 followed by ["..."] beyond, and the empty string without a
    text. *)
Theorem get_chunk_sources_defaults (chunks : list dict) :
  Forall well_typed_chunk chunks →
  ∃ sources,
    get_chunk_sources chunks = inr sources
    ∧ length sources = length chunks
    ∧ ∀ (i : nat) (chunk source : dict),
        chunks !! i = Some chunk → sources !! i = Some source →
        (∀ v, chunk !! "filename" = Some v → source !! "filename" = Some v)
        ∧ (chunk !! "filename" = None →
           source !! "filename" = Some (VStr (lit "Unknown")))
        ∧ source !! "section"
          = Some (VStr (lit "Section " ++ str_of_int (index_of chunk + 1)))
        ∧ (chunk !! "chunk_index" = None →
           source !! "section" = Some (VStr (lit "Section 1")))
        ∧ ((length (text_of chunk) ≤ 200)%nat →
           source !! "preview" = Some (VStr (text_of chunk)))
        ∧ ((200 < length (text_of chunk))%nat →
           source !! "preview"
           = Some (VStr (take 200 (text_of chunk) ++ lit "...")))
        ∧ (chunk !! "text" = None → source !! "preview" = Some (VStr [])).
Proof.
  induction 1 as [|chunk chunks Hchunk _ (sources & Hrun & Hlen & Heach)].
  - exists []. split; [done|]. split; [done|].
    intros i chunk source Hi. by rewrite lookup_nil in Hi.
  - simpl. rewrite (chunk_source_well_typed chunk Hchunk), Hrun.
    eexists (_ :: sources). split; [reflexivity|]. split; [simpl; congruence|].
    intros [|i] chunk' source Hc Hs; simpl in Hc, Hs; [|by eapply Heach].
    injection Hc as <-. injection Hs as <-.
    split. { intros v Hv. unfold dict_get. by rewrite Hv. }
    split. { intros Hv. unfold dict_get. by rewrite Hv. }
    split; [reflexivity|].
    split. { intros Hv. unfold index_of. by rewrite Hv. }
    split.
    { intros Hshort. rewrite lookup_insert_ne by done.
      rewrite lookup_insert_ne by done. rewrite lookup_singleton_eq.
      destruct (Z.ltb_spec 200 (len (text_of chunk))); [unfold len in *; lia | done]. }
    split.
    { intros Hlong. rewrite lookup_insert_ne by done.
      rewrite lookup_insert_ne by done. rewrite lookup_singleton_eq.
      destruct (Z.ltb_spec 200 (len (text_of chunk))); [done | unfold len in *; lia]. }
    intros Hv. unfold text_of. by rewrite Hv.
Qed.

End PdfTheorems.

(* ===================================================================== *)
(** * The batch processor on the example files *)
(* ===================================================================== *)

Lemma blank_page_yields_nothing :
  page_yields_nothing (rt := demo_runtime) blank_page.
Proof. exists []. split; [reflexivity|]. left. reflexivity. Qed.

Lemma scanned_pdf_marked_success_witness :
  extract_text_from_pdf (rt := demo_runtime) scanned_pdf = no_text_message
  ∧ process_file (rt := demo_runtime) 1 0 scanned_pdf
    = Some ([chunk_data (lit "scan.pdf") 0 no_text_message 0 131],
            success_entry (lit "scan.pdf") 1 131).
Proof.
  destruct (scanned_pdf_marked_success (rt := demo_runtime) scanned_pdf
              [blank_page; blank_page] 1 0) as (H1 & _ & H3 & _).
  - reflexivity.
  - discriminate.
  - discriminate.
  - reflexivity.
  - repeat constructor; apply blank_page_yields_nothing.
  - split; assumption.
Defined.

(** The batch of three files with a zero-byte file in the middle: the
    entries recorded, in order, and the chunks returned. *)
Example partial_failure_isolation :
  process_loop (rt := demo_runtime) 2 0 [hello_pdf; empty_pdf; hello_pdf] [] []
  = Some ([chunk_data (lit "Hello.PDF") 0 (lit "Hello world") 0 11;
           chunk_data (lit "Hello.PDF") 0 (lit "Hello world") 2 11],
          [success_entry (lit "Hello.PDF") 1 11;
           status_entry (lit "empty.pdf") "failed" "Empty file";
           success_entry (lit "Hello.PDF") 1 11]).
Proof. vm_compute. reflexivity. Qed.

Lemma process_uploaded_pdfs_statuses_witness :
  ∃ (per_file : list (list dict)) (processing_results : list dict),
    process_loop (rt := demo_runtime) 2 0 [hello_pdf; empty_pdf; hello_pdf] [] []
    = Some (concat per_file, processing_results)
    ∧ length processing_results = 3%nat.
Proof.
  destruct (process_uploaded_pdfs_statuses (rt := demo_runtime) 2
              [hello_pdf; empty_pdf; hello_pdf]) as (per_file & results & H1 & _ & H3 & _).
  - repeat constructor; vm_compute; lia.
  - exists per_file, results. split; assumption.
Defined.

(** C3, the claim as stated fails: for a batch of two files the function
    returns a list of one element, and that element is a chunk, with no
    status in it. *)
Lemma process_returns_chunks_not_statuses :
  ∃ returned,
    process_uploaded_pdfs (rt := demo_runtime) 2 [notes_txt; hello_pdf]
    = Some returned
    ∧ length [notes_txt; hello_pdf] = 2%nat
    ∧ length returned = 1%nat
    ∧ Forall (fun e : dict => e !! "status" = None) returned.
Proof.
  eexists. split; [vm_compute; reflexivity|].
  split; [reflexivity|]. split; [reflexivity|].
  repeat constructor.
Qed.

Lemma get_chunk_sources_defaults_witness :
  ∃ sources,
    get_chunk_sources (rt := demo_runtime) [demo_chunk 3 "alpha beta"; ∅]
    = inr sources
    ∧ length sources = 2%nat.
Proof.
  destruct (get_chunk_sources_defaults (rt := demo_runtime)
              [demo_chunk 3 "alpha beta"; ∅]) as (sources & H1 & H2 & _).
  - repeat constructor.
    + intros v H. vm_compute in H. injection H as <-. eexists. reflexivity.
    + intros v H. vm_compute in H. injection H as <-. eexists. reflexivity.
    + intros v H. rewrite lookup_empty in H. discriminate.
    + intros v H. rewrite lookup_empty in H. discriminate.
  - exists sources. split; assumption.
Defined.

(** The sources of a full record and of a record without any key. *)
Example get_chunk_sources_example :
  get_chunk_sources (rt := demo_runtime) [demo_chunk 3 "alpha beta"; ∅]
  = inr [ {[ "filename" := VStr (lit "notes.pdf");
             "section" := VStr (lit "Section 4");
             "preview" := VStr (lit "alpha beta") ]};
          {[ "filename" := VStr (lit "Unknown");
             "section" := VStr (lit "Section 1");
             "preview" := VStr [] ]} ].
Proof. vm_compute. reflexivity. Qed.

(* ===================================================================== *)
(** * The flat index *)
(* ===================================================================== *)

Lemma insert_hit_length (h : Q * Z) (hits : list (Q * Z)) :
  length (insert_hit h hits) = S (length hits).
Proof.
  induction hits as [|h' hits IH]; simpl; [done|].
  destruct (Qle_bool (fst h) (fst h')); simpl; congruence.
Qed.

Lemma sort_hits_length (hits : list (Q * Z)) :
  length (sort_hits hits) = length hits.
Proof.
  induction hits as [|h hits IH]; simpl; [done|].
  by rewrite insert_hit_length, IH.
Qed.

Lemma insert_hit_Forall (P : Q * Z → Prop) (h : Q * Z) (hits : list (Q * Z)) :
  P h → Forall P hits → Forall P (insert_hit h hits).
Proof.
  intros Hh. induction 1 as [|h' hits Hh' Hrest IH]; simpl.
  - by repeat constructor.
  - destruct (Qle_bool (fst h) (fst h')); by repeat constructor.
Qed.

Lemma sort_hits_Forall (P : Q * Z → Prop) (hits : list (Q * Z)) :
  Forall P hits → Forall P (sort_hits hits).
Proof.
  induction 1 as [|h hits Hh _ IH]; simpl; [constructor|].
  by apply insert_hit_Forall.
Qed.

Lemma insert_hit_sorted (h : Q * Z) (hits : list (Q * Z)) :
  StronglySorted hit_le hits → StronglySorted hit_le (insert_hit h hits).
Proof.
  induction 1 as [|h' hits Hs IH Hall]; simpl.
  - by repeat constructor.
  - destruct (Qle_bool (fst h) (fst h')) eqn:E.
    + apply Qle_bool_iff in E.
      constructor; [by constructor|].
      constructor; [exact E|].
      eapply Forall_impl; [exact Hall|].
      intros x Hx. unfold hit_le in *. by eapply Qle_trans.
    + assert (Hlt : (fst h' <= fst h)%Q).
      { destruct (Qlt_le_dec (fst h') (fst h)) as [Hl|Hl].
        - by apply Qlt_le_weak.
        - apply Qle_bool_iff in Hl. congruence. }
      constructor; [exact IH|].
      by apply insert_hit_Forall.
Qed.

Lemma sort_hits_sorted (hits : list (Q * Z)) :
  StronglySorted hit_le (sort_hits hits).
Proof.
  induction hits as [|h hits IH]; simpl; [constructor|].
  by apply insert_hit_sorted.
Qed.

Lemma StronglySorted_take {A} (R : relation A) (n : nat) (l : list A) :
  StronglySorted R l → StronglySorted R (take n l).
Proof.
  intros H. rewrite <- (take_drop n l) in H.
  by apply StronglySorted_app_1_l in H.
Qed.

Lemma insert_hit_perm (h : Q * Z) (hits : list (Q * Z)) :
  insert_hit h hits ≡ₚ h :: hits.
Proof.
  induction hits as [|h' hits IH]; simpl; [done|].
  destruct (Qle_bool (fst h) (fst h')); [done|].
  rewrite IH. apply Permutation_swap.
Qed.

Lemma sort_hits_perm (hits : list (Q * Z)) : sort_hits hits ≡ₚ hits.
Proof.
  induction hits as [|h hits IH]; simpl; [done|].
  by rewrite insert_hit_perm, IH.
Qed.

Lemma Qle_bool_false (a b : Q) : Qle_bool a b = false → (b < a)%Q.
Proof.
  intros H. destruct (Qlt_le_dec b a) as [Hl|Hl]; [done|].
  apply Qle_bool_iff in Hl. congruence.
Qed.

(** The candidates of a scan are the rows within reach, each with its
    number and the distance computed for it. *)
Lemma scan_rows_elem `{faiss : Faiss} (q : vec) (rows : matrix) :
  ∀ (i0 : nat) (h : Q * Z),
    h ∈ scan_rows q i0 rows ↔
    ∃ (j : nat) (x : vec),
      rows !! j = Some x ∧ fvec_L2sqr q x = Some (fst h)
      ∧ (fst h < FLT_MAX)%Q ∧ snd h = Z.of_nat (i0 + j).
Proof.
  induction rows as [|x rows IH]; intros i0 h.
  - simpl. split; [by intros ?%elem_of_nil | by intros (j & y & ? & _)].
  - assert (Hrest : h ∈ scan_rows q (S i0) rows ↔
              ∃ (j : nat) (y : vec),
                (x :: rows) !! S j = Some y ∧ fvec_L2sqr q y = Some (fst h)
                ∧ (fst h < FLT_MAX)%Q ∧ snd h = Z.of_nat (i0 + S j)).
    { rewrite IH. split; intros (j & y & H1 & H2 & H3 & H4);
        exists j, y; (split; [exact H1|]); (split; [exact H2|]);
        (split; [exact H3|]); rewrite H4; f_equal; lia. }
    assert (Hskip : (∀ d, fvec_L2sqr q x = Some d → ¬ (d < FLT_MAX)%Q) →
              h ∈ scan_rows q (S i0) rows ↔
              ∃ (j : nat) (y : vec),
                (x :: rows) !! j = Some y ∧ fvec_L2sqr q y = Some (fst h)
                ∧ (fst h < FLT_MAX)%Q ∧ snd h = Z.of_nat (i0 + j)).
    { intros Hout. rewrite Hrest. split.
      - intros (j & y & H). by exists (S j), y.
      - intros ([|j] & y & H1 & H2 & H3 & H4); [|by exists j, y].
        simpl in H1. injection H1 as <-. by destruct (Hout _ H2). }
    simpl scan_rows.
    destruct (fvec_L2sqr q x) as [d|] eqn:Hd; [|by apply Hskip].
    destruct (Qle_bool FLT_MAX d) eqn:Hle.
    + apply Hskip. intros d' [= <-]. apply Qle_bool_iff in Hle.
      by apply Qle_not_lt.
    + apply Qle_bool_false in Hle. rewrite elem_of_cons, Hrest. split.
      * intros [-> | (j & y & H)]; [|by exists (S j), y].
        exists 0%nat, x. simpl. split; [done|]. split; [done|].
        split; [done|]. f_equal. lia.
      * intros ([|j] & y & H1 & H2 & H3 & H4); [|right; by exists j, y].
        left. simpl in H1. injection H1 as <-.
        destruct h as [hd hi]. simpl in *. rewrite Hd in H2.
        injection H2 as ->. rewrite H4. do 2 f_equal. lia.
Qed.

Lemma scan_rows_ids `{faiss : Faiss} (q : vec) (rows : matrix) :
  ∀ i0 : nat, NoDup (snd <$> scan_rows q i0 rows).
Proof.
  induction rows as [|x rows IH]; intros i0; [constructor|].
  assert (Hnot : Z.of_nat i0 ∉ snd <$> scan_rows q (S i0) rows).
  { intros Hin. apply list_elem_of_fmap in Hin as (h & Hh & Hin).
    apply scan_rows_elem in Hin as (j & y & _ & _ & _ & Hj). lia. }
  simpl scan_rows.
  destruct (fvec_L2sqr q x) as [d|]; [|apply IH].
  destruct (Qle_bool FLT_MAX d); [apply IH|].
  simpl. apply NoDup_cons. split; [exact Hnot | apply IH].
Qed.

Lemma scan_rows_all `{faiss : Faiss} (q : vec) (rows : matrix) :
  ∀ i0 : nat,
    Forall (in_reach q) rows → length (scan_rows q i0 rows) = length rows.
Proof.
  induction rows as [|x rows IH]; intros i0 Hall; [done|].
  apply Forall_cons in Hall as [(d & Hd & Hlt) Hall].
  simpl. rewrite Hd.
  destruct (Qle_bool FLT_MAX d) eqn:Hle.
  - apply Qle_bool_iff in Hle. by destruct (Qle_not_lt _ _ Hle).
  - simpl. by rewrite IH.
Qed.

(** The nearest candidates: rows of the index with their distances, in
    order of distance, no row twice; a row within reach that is left out is
    at least as far as every one of them, and there are [k] of them then. *)
Lemma nearest_spec `{faiss : Faiss} (ix : IndexFlatL2) (k : nat) (q : vec) :
  Forall (row_hit ix q) (nearest ix k q)
  ∧ StronglySorted hit_le (nearest ix k q)
  ∧ NoDup (snd <$> nearest ix k q)
  ∧ (length (nearest ix k q) ≤ k)%nat
  ∧ (Forall (in_reach q) (xb ix) → (k ≤ length (xb ix))%nat →
     length (nearest ix k q) = k)
  ∧ ∀ (i : nat) (x : vec) (d : Q),
      xb ix !! i = Some x → fvec_L2sqr q x = Some d → (d < FLT_MAX)%Q →
      Z.of_nat i ∉ snd <$> nearest ix k q →
      length (nearest ix k q) = k
      ∧ Forall (fun h => (fst h <= d)%Q) (nearest ix k q).
Proof.
  unfold nearest. set (found := scan_rows q 0 (xb ix)).
  set (sorted := sort_hits found).
  assert (Hperm : sorted ≡ₚ found) by apply sort_hits_perm.
  assert (Hsorted : StronglySorted hit_le (take k sorted ++ drop k sorted)).
  { rewrite take_drop. apply sort_hits_sorted. }
  split.
  { apply Forall_take, Forall_forall. intros h Hh. rewrite Hperm in Hh.
    apply scan_rows_elem in Hh as (j & x & H1 & H2 & H3 & H4).
    by exists j, x. }
  split; [by apply StronglySorted_app_1_l in Hsorted|].
  split.
  { assert (Hnd : NoDup (snd <$> sorted)).
    { rewrite Hperm. apply scan_rows_ids. }
    rewrite <- (take_drop k sorted), fmap_app in Hnd.
    by apply NoDup_app in Hnd as [? _]. }
  split; [rewrite length_take; lia|].
  split.
  { intros Hall Hk. rewrite length_take. unfold sorted.
    rewrite sort_hits_length. unfold found. rewrite scan_rows_all by done. lia. }
  intros i x d Hx Hd Hlt Hout.
  assert (Hi : (d, Z.of_nat i) ∈ sorted).
  { rewrite Hperm. apply scan_rows_elem. by exists i, x. }
  rewrite <- (take_drop k sorted) in Hi. apply elem_of_app in Hi as [Hi|Hi].
  { exfalso. apply Hout. apply list_elem_of_fmap. by exists (d, Z.of_nat i). }
  split.
  - rewrite length_take. apply list_elem_of_lookup in Hi as [j Hj].
    apply lookup_lt_Some in Hj. rewrite length_drop in Hj. lia.
  - apply Forall_forall. intros h Hh.
    apply (StronglySorted_app_1_elem_of _ _ _ _ _ Hsorted Hh Hi).
Qed.

(** A search row has exactly [k] hits, in order of distance: the nearest
    candidates, then the padding. *)
Lemma search_row_spec `{faiss : Faiss} (ix : IndexFlatL2) (k : nat) (q : vec) :
  length (search_row ix k q) = k
  ∧ StronglySorted hit_le (search_row ix k q)
  ∧ Forall (fun h => row_hit ix q h ∨ h = (FLT_MAX, -1)) (search_row ix k q).
Proof.
  destruct (nearest_spec ix k q) as (Hhits & Hsorted & _ & Hlen & _).
  unfold search_row. cbv zeta. split; [|split].
  - rewrite length_app, length_replicate. lia.
  - apply StronglySorted_app_2; [|exact Hsorted|].
    + intros h1 h2 H1 H2. apply elem_of_replicate in H2 as [-> _].
      destruct (proj1 (Forall_forall _ _) Hhits h1 H1) as (i & x & _ & _ & Hlt & _).
      unfold hit_le. simpl. by apply Qlt_le_weak.
    + generalize (k - length (nearest ix k q))%nat. intros n.
      induction n as [|n IH]; simpl; constructor; [exact IH|].
      apply Forall_replicate. unfold hit_le. apply Qle_refl.
  - apply Forall_app. split.
    + eapply Forall_impl; [exact Hhits|]. intros h Hh. by left.
    + apply Forall_replicate. by right.
Qed.

Lemma row_hit_range `{faiss : Faiss} (ix : IndexFlatL2) (q : vec) (h : Q * Z) :
  row_hit ix q h → 0 ≤ snd h < ntotal ix.
Proof.
  intros (i & x & Hx & _ & _ & ->). apply lookup_lt_Some in Hx.
  unfold ntotal. lia.
Qed.

Lemma zip_map_fst_snd {A B} (l : list (A * B)) :
  zip (map fst l) (map snd l) = l.
Proof. induction l as [|[a b] l IH]; simpl; congruence. Qed.

(* ===================================================================== *)
(** * The retriever: how the operations run *)
(* ===================================================================== *)


Lemma with_store_insert_twice (l : loc) (d d' : dict) (st : State) :
  with_store (insert l d') (with_store (insert l d) st)
  = with_store (insert l d') st.
Proof.
  unfold with_store. simpl. f_equal. apply insert_insert_eq.
Qed.

(** Copying the dictionary at [c] and assigning two of its items. *)
Lemma copy_and_tag {A} (c : loc) (distance : Q) (rank : Z) (k : loc → M A)
    (st : State) :
  (chunk <- dict_copy c ;;
   dict_setitem chunk "similarity_score" (VFloat distance) ;;;
   dict_setitem chunk "rank" (VInt rank) ;;;
   k chunk) st
  = match store st !! c with
    | None => (inl DanglingRef, st)
    | Some d =>
        let l' := fresh (dom (store st)) in
        k l' (with_store (insert l' (tagged d distance rank)) st)
    end.
Proof.
  unfold bind at 1. unfold dict_copy, bind at 1. unfold load.
  destruct (store st !! c) as [d|] eqn:Hc; [|done].
  cbv zeta.
  unfold bind at 1. unfold dict_setitem at 1. unfold bind at 1. unfold load.
  simpl store. rewrite lookup_insert_eq.
  unfold bind at 1. unfold dict_setitem at 1. unfold bind at 1. unfold load.
  simpl store. rewrite lookup_insert_eq.
  rewrite !with_store_insert_twice. done.
Qed.

Lemma retrieve_loop_cons (distance : Q) (idx : Z) (hits : list (Q * Z))
    (i : Z) (results : list loc) (st : State) :
  retrieve_loop ((distance, idx) :: hits) i results st
  = if idx <? Z.of_nat (length (self_chunks (self st))) then
      match py_index (self_chunks (self st)) idx with
      | inl e => (inl e, st)
      | inr c =>
          match store st !! c with
          | None => (inl DanglingRef, st)
          | Some d =>
              let l' := fresh (dom (store st)) in
              retrieve_loop hits (i + 1) (results ++ [l'])
                (with_store (insert l' (tagged d distance (i + 1))) st)
          end
      end
    else retrieve_loop hits (i + 1) results st.
Proof.
  simpl retrieve_loop. unfold bind at 1. unfold get_self.
  destruct (idx <? _); [|done].
  unfold bind at 1.
  destruct (py_index (self_chunks (self st)) idx) as [e|c]; simpl lift; [done|].
  unfold ret at 1.
  apply (copy_and_tag c distance (i + 1)
           (fun chunk => retrieve_loop hits (i + 1) (results ++ [chunk]))).
Qed.


Lemma frame_refl (st : State) : frame st st.
Proof. by split. Qed.

Lemma frame_trans (st1 st2 st3 : State) :
  frame st1 st2 → frame st2 st3 → frame st1 st3.
Proof.
  intros [H1 H2] [H3 H4]. split; [congruence|]. by etrans.
Qed.

Lemma frame_alloc (st : State) (d : dict) :
  frame st (with_store (insert (fresh (dom (store st))) d) st).
Proof.
  split; [done|]. simpl. apply insert_subseteq.
  apply not_elem_of_dom. apply is_fresh.
Qed.

Lemma fresh_not_stored (st : State) : store st !! fresh (dom (store st)) = None.
Proof. apply not_elem_of_dom, is_fresh. Qed.

(** The loop only adds dictionaries: what it returns extends [results]
    with locations that were free before and hold a dictionary after. *)
Lemma retrieve_loop_frame (hits : list (Q * Z)) :
  ∀ (i : Z) (results : list loc) (st : State),
    frame st (snd (retrieve_loop hits i results st))
    ∧ encode_calls (snd (retrieve_loop hits i results st)) = encode_calls st
    ∧ ∀ r, fst (retrieve_loop hits i results st) = inr r →
        ∃ new, r = results ++ new
          ∧ Forall (fun l => store st !! l = None
                             ∧ is_Some (store (snd (retrieve_loop hits i results st)) !! l)) new.
Proof.
  induction hits as [|[distance idx] hits IH]; intros i results st.
  - simpl. split; [apply frame_refl|]. split; [done|].
    intros r [= <-]. exists []. by rewrite app_nil_r.
  - rewrite retrieve_loop_cons.
    destruct (idx <? _).
    + destruct (py_index _ idx) as [e|c].
      { simpl. split; [apply frame_refl|]. split; [done|]. intros r [=]. }
      destruct (store st !! c) as [d|] eqn:Hc.
      2:{ simpl. split; [apply frame_refl|]. split; [done|]. intros r [=]. }
      cbv zeta. set (l' := fresh (dom (store st))).
      set (st1 := with_store (insert l' (tagged d distance (i + 1))) st).
      destruct (IH (i + 1) (results ++ [l']) st1) as (Hf & Hc' & Hr).
      assert (Hf1 : frame st st1) by apply frame_alloc.
      split; [by eapply frame_trans|]. split; [exact Hc'|].
      intros r Hres. destruct (Hr r Hres) as (new & -> & Hnew).
      exists (l' :: new). split; [by rewrite <- app_assoc|].
      constructor.
      * split; [apply fresh_not_stored|].
        destruct Hf as [_ Hsub].
        exists (tagged d distance (i + 1)).
        eapply lookup_weaken; [|exact Hsub]. apply lookup_insert_eq.
      * eapply Forall_impl; [exact Hnew|]. intros l [Hn Hs]. split; [|exact Hs].
        destruct Hf1 as [_ Hsub1].
        destruct (store st !! l) as [d0|] eqn:E; [|done].
        eapply lookup_weaken in E; [|exact Hsub1]. congruence.
    + apply IH.
Qed.


Lemma py_index_inside {A} (l : list A) (i : Z) (x : A) :
  0 ≤ i → l !! Z.to_nat i = Some x → py_index l i = inr x.
Proof.
  intros Hi Hx. unfold py_index.
  pose proof (lookup_lt_Some _ _ _ Hx) as Hlt.
  destruct (Z.ltb_spec i 0); [lia|].
  destruct (Z.leb_spec 0 i); [|lia].
  destruct (Z.ltb_spec i (Z.of_nat (length l))); [|lia].
  simpl. by rewrite Hx.
Qed.

Lemma py_index_elem {A} (l : list A) (i : Z) (x : A) :
  py_index l i = inr x → x ∈ l.
Proof.
  unfold py_index. cbv zeta.
  destruct (_ && _); [|done].
  destruct (l !! _) as [y|] eqn:Hy; [|done].
  intros [= <-]. by eapply list_elem_of_lookup_2.
Qed.

Lemma py_index_valid {A} (l : list A) (i : Z) :
  - Z.of_nat (length l) ≤ i < Z.of_nat (length l) →
  ∃ x, py_index l i = inr x.
Proof.
  intros Hi. unfold py_index. cbv zeta.
  set (j := if i <? 0 then i + Z.of_nat (length l) else i).
  assert (Hj : 0 ≤ j < Z.of_nat (length l)).
  { unfold j. destruct (Z.ltb_spec i 0); lia. }
  destruct (Z.leb_spec 0 j); [|lia].
  destruct (Z.ltb_spec j (Z.of_nat (length l))); [|lia]. simpl.
  destruct (lookup_lt_is_Some_2 l (Z.to_nat j)) as [x Hx]; [lia|].
  rewrite Hx. by exists x.
Qed.

(** Python reads index [-1] as the last element. *)
Lemma py_index_last {A} (l : list A) (x : A) :
  py_index l (-1) = inr x → last l = Some x.
Proof.
  unfold py_index. cbv zeta. change (-1 <? 0) with true. cbv iota.
  destruct (Z.leb_spec 0 (-1 + Z.of_nat (length l))); [|done].
  destruct (Z.ltb_spec (-1 + Z.of_nat (length l)) (Z.of_nat (length l))); [|done].
  simpl. rewrite last_lookup.
  replace (Z.to_nat (-1 + Z.of_nat (length l))) with (pred (length l)) by lia.
  destruct (l !! _); [by intros [= ->] | done].
Qed.

(** On hits whose row ids Python accepts as indices into the chunk list,
    the loop returns one result per hit: a copy of the chunk the id reads,
    carrying the hit's distance and the 1-based position. *)
Lemma retrieve_loop_valid (hits : list (Q * Z)) :
  ∀ (i : Z) (results : list loc) (st : State),
    Forall (fun h : Q * Z =>
              - Z.of_nat (length (self_chunks (self st))) ≤ snd h
              < Z.of_nat (length (self_chunks (self st)))) hits →
    Forall (fun l => is_Some (store st !! l)) (self_chunks (self st)) →
    ∃ new st',
      retrieve_loop hits i results st = (inr (results ++ new), st')
      ∧ frame st st'
      ∧ length new = length hits
      ∧ ∀ (j : nat) (l : loc) (h : Q * Z),
          new !! j = Some l → hits !! j = Some h →
          ∃ c d,
            py_index (self_chunks (self st)) (snd h) = inr c
            ∧ store st !! c = Some d
            ∧ store st' !! l = Some (tagged d (fst h) (i + Z.of_nat j + 1)).
Proof.
  induction hits as [|[distance idx] hits IH]; intros i results st Hhits Hstore.
  - exists [], st. simpl. rewrite app_nil_r.
    split; [done|]. split; [apply frame_refl|]. split; [done|].
    intros j l h Hl. by rewrite lookup_nil in Hl.
  - apply Forall_cons in Hhits as [Hidx Hhits]. simpl in Hidx.
    rewrite retrieve_loop_cons.
    destruct (Z.ltb_spec idx (Z.of_nat (length (self_chunks (self st))))); [|lia].
    destruct (py_index_valid (self_chunks (self st)) idx Hidx) as [c Hc].
    rewrite Hc.
    pose proof (proj1 (Forall_forall _ _) Hstore _ (py_index_elem _ _ _ Hc))
      as [d Hd].
    rewrite Hd. cbv zeta.
    set (l' := fresh (dom (store st))).
    set (st1 := with_store (insert l' (tagged d distance (i + 1))) st).
    assert (Hf1 : frame st st1) by apply frame_alloc.
    destruct (IH (i + 1) (results ++ [l']) st1) as (new & st' & Hrun & Hf & Hlen & Hnew).
    { exact Hhits. }
    { eapply Forall_impl; [exact Hstore|]. intros l [d0 Hl].
      exists d0. eapply lookup_weaken; [exact Hl | apply Hf1]. }
    exists (l' :: new), st'.
    split; [by rewrite Hrun, <- app_assoc|].
    split; [by eapply frame_trans|].
    split; [simpl; congruence|].
    intros [|j] l h Hl Hh; simpl in Hl, Hh.
    + injection Hl as <-. injection Hh as <-. simpl.
      exists c, d. split; [exact Hc|]. split; [exact Hd|].
      change (Z.of_nat 0) with 0. rewrite Z.add_0_r.
      eapply lookup_weaken; [|apply Hf]. apply lookup_insert_eq.
    + destruct (Hnew j l h Hl Hh) as (c' & d' & Hc' & Hd' & Hl').
      exists c', d'. split; [exact Hc'|]. split.
      * change (self_chunks (self st1)) with (self_chunks (self st)) in Hc'.
        pose proof (proj1 (Forall_forall _ _) Hstore _ (py_index_elem _ _ _ Hc'))
          as [d0 Hd0].
        pose proof (lookup_weaken _ _ _ _ Hd0 (proj2 Hf1)) as Hd1.
        congruence.
      * replace (i + Z.of_nat (S j) + 1) with (i + 1 + Z.of_nat j + 1) by lia.
        exact Hl'.
Qed.

Lemma strip_truthy_nonspace (query : pystr) :
  truthy (strip query) = true ↔ ¬ Forall (fun c => is_space c = true) query.
Proof.
  split.
  - intros H Hall. apply strip_spaces in Hall. by rewrite Hall in H.
  - intros H. destruct (strip query) eqn:E; [|done].
    exfalso. apply H. by apply strip_nil_inv.
Qed.

(** How a query runs on a ready retriever: the loop goes over the search
    row of the query's embedding, whose row ids all read a chunk. *)
Lemma retrieve_ready_run `{faiss : Faiss} (st : State) (ix : IndexFlatL2)
    (query : pystr) (top_k : Z) (qv : vec) :
  Ready st ix →
  ¬ Forall (fun c => is_space c = true) query →
  self_model (self st) [VStr query] = Some [qv] →
  length qv = dim ix →
  1 ≤ top_k →
  ∃ (k : nat) (results : list loc) (st' : State),
    k = Z.to_nat (Z.min top_k (Z.of_nat (length (self_chunks (self st)))))
    ∧ retrieve_relevant_chunks query top_k st = (inr results, st')
    ∧ store st ⊆ store st'
    ∧ length results = length (search_row ix k qv)
    ∧ ∀ (j : nat) (l : loc) (h : Q * Z),
        results !! j = Some l → search_row ix k qv !! j = Some h →
        ∃ c d,
          py_index (self_chunks (self st)) (snd h) = inr c
          ∧ store st !! c = Some d
          ∧ store st' !! l = Some (tagged d (fst h) (Z.of_nat j + 1)).
Proof.
  intros (Hix & Hne & Hrows & Hstore) Hq Hmodel Hdim Hk.
  apply strip_truthy_nonspace in Hq.
  set (n := length (self_chunks (self st))).
  assert (Hn : (0 < n)%nat).
  { unfold n. destruct (self_chunks (self st)); [done | simpl; lia]. }
  set (k := Z.min top_k (Z.of_nat n)).
  set (row := search_row ix (Z.to_nat k) qv).
  destruct (search_row_spec ix (Z.to_nat k) qv) as (Hlen & _ & Hkinds).
  fold row in Hlen, Hkinds.
  set (st1 := {| self := self st; store := store st;
                 encode_calls := encode_calls st ++ [[VStr query]] |}).
  destruct (retrieve_loop_valid row 0 [] st1) as (new & st' & Hrun & Hf & Hnlen & Hnew).
  { eapply Forall_impl; [exact Hkinds|]. intros h [Hh| ->]; simpl; fold n.
    - apply row_hit_range in Hh. unfold ntotal in Hh. rewrite Hrows in Hh.
      fold n in Hh. lia.
    - lia. }
  { exact Hstore. }
  exists (Z.to_nat k), new, st'.
  split; [done|]. split.
  { unfold retrieve_relevant_chunks. rewrite Hq.
    change (negb true) with false. cbv iota.
    unfold bind, get_self, try_except, model_encode. cbv beta iota.
    rewrite Hix. fold n. destruct (Nat.eqb_spec n 0); [lia|].
    rewrite Hmodel. fold st1. cbv beta iota zeta.
    unfold index_search. simpl forallb.
    rewrite Hdim, Nat.eqb_refl. simpl negb. cbv iota.
    fold k. destruct (Z.leb_spec k 0); [unfold k in *; lia|].
    simpl map. fold row. simpl lift. unfold ret. cbv beta iota. simpl fst. simpl snd.
    change (py_index [map fst row] 0) with (inr (map fst row) : exn + list Q).
    change (py_index [map snd row] 0) with (inr (map snd row) : exn + list Z).
    simpl lift. unfold ret. cbv beta iota.
    rewrite zip_map_fst_snd. rewrite Hrun. done. }
  split; [apply Hf|]. split; [exact Hnlen|].
  intros j l h Hl Hh. destruct (Hnew j l h Hl Hh) as (c & d & H1 & H2 & H3).
  exists c, d. split; [exact H1|]. split; [exact H2|].
  by rewrite Z.add_0_l in H3.
Qed.

(** C6. On a ready retriever holding [N] chunks, a query that is not blank
    and that the model embeds as one vector of the index's dimension
    returns, for [top_k ≥ 1], exactly [min(top_k, N)] results, one per hit
    of the search, and the distances of the hits never decrease. The result
    at position [j] (from 0) is a copy of a stored chunk with rank [j + 1]
    and the distance of its hit as similarity score: either the chunk at
    the row the hit reports, with the distance FAISS computed between the
    query's embedding and that row, or, for a hit of padding, the last
    chunk with [FLT_MAX]. When every row is within reach of the query there
    is no padding: every score is the distance to the row of its chunk. *)
Theorem retrieve_top_k `{faiss : Faiss} (st : State) (ix : IndexFlatL2)
    (query : pystr) (top_k : Z) (qv : vec) :
  Ready st ix →
  ¬ Forall (fun c => is_space c = true) query →
  self_model (self st) [VStr query] = Some [qv] →
  length qv = dim ix →
  1 ≤ top_k →
  ∃ (results : list loc) (hits : list (Q * Z)) (st' : State),
    retrieve_relevant_chunks query top_k st = (inr results, st')
    ∧ Z.of_nat (length results)
      = Z.min top_k (Z.of_nat (length (self_chunks (self st))))
    ∧ length hits = length results
    ∧ StronglySorted hit_le hits
    ∧ (∀ (j : nat) (l : loc) (h : Q * Z),
         results !! j = Some l → hits !! j = Some h →
         ∃ c d,
           store st !! c = Some d
           ∧ store st' !! l = Some (tagged d (fst h) (Z.of_nat j + 1))
           ∧ ((∃ (r : nat) (x : vec),
                 snd h = Z.of_nat r
                 ∧ self_chunks (self st) !! r = Some c
                 ∧ xb ix !! r = Some x
                 ∧ fvec_L2sqr qv x = Some (fst h))
              ∨ (h = (FLT_MAX, -1)
                 ∧ last (self_chunks (self st)) = Some c)))
    ∧ (Forall (in_reach qv) (xb ix) → Forall (fun h => 0 ≤ snd h) hits).
Proof.
  intros HR Hq Hmodel Hdim Hk.
  destruct (retrieve_ready_run st ix query top_k qv HR Hq Hmodel Hdim Hk)
    as (k & results & st' & Hkdef & Hrun & _ & Hlen & Hres).
  destruct HR as (Hix & Hne & Hrows & Hstore).
  destruct (search_row_spec ix k qv) as (Hklen & Hsorted & Hkinds).
  exists results, (search_row ix k qv), st'.
  split; [exact Hrun|].
  split; [rewrite Hlen, Hklen, Hkdef; lia|].
  split; [done|]. split; [exact Hsorted|]. split.
  - intros j l h Hl Hh. destruct (Hres j l h Hl Hh) as (c & d & Hc & Hd & Hst).
    exists c, d. split; [exact Hd|]. split; [exact Hst|].
    destruct (proj1 (Forall_lookup _ _) Hkinds j h Hh)
      as [(i & x & Hx & Hdist & _ & Hi)| ->].
    + left. exists i, x. split; [exact Hi|]. split; [|done].
      destruct (lookup_lt_is_Some_2 (self_chunks (self st)) i) as [c' Hc'].
      { rewrite <- Hrows. by eapply lookup_lt_Some. }
      rewrite Hi in Hc.
      rewrite (py_index_inside _ (Z.of_nat i) c') in Hc;
        [congruence | lia | by rewrite Nat2Z.id].
    + right. split; [done|]. by apply py_index_last.
  - intros Hall. unfold search_row. cbv zeta.
    destruct (nearest_spec ix k qv) as (Hhits & _ & _ & _ & Hfull & _).
    rewrite Hfull; [|done|rewrite Hrows, Hkdef; lia].
    rewrite Nat.sub_diag. simpl. rewrite app_nil_r.
    eapply Forall_impl; [exact Hhits|]. intros h Hh.
    apply row_hit_range in Hh. lia.
Qed.

Lemma demo_ready_Ready : Ready demo_ready demo_index.
Proof.
  split; [reflexivity|]. split; [discriminate|]. split; [reflexivity|].
  repeat constructor; eexists; vm_compute; reflexivity.
Qed.

Lemma demo_far_Ready : Ready demo_far far_index.
Proof.
  split; [reflexivity|]. split; [discriminate|]. split; [reflexivity|].
  repeat constructor; eexists; vm_compute; reflexivity.
Qed.

Lemma retrieve_top_k_witness :
  ∃ (results : list loc) (hits : list (Q * Z)) (st' : State),
    retrieve_relevant_chunks (faiss := demo_faiss) (lit "gamma") 5 demo_ready
    = (inr results, st')
    ∧ Z.of_nat (length results) = 2
    ∧ length hits = length results
    ∧ StronglySorted hit_le hits.
Proof.
  destruct (retrieve_top_k (faiss := demo_faiss) demo_ready demo_index
              (lit "gamma") 5 [5%Q; 1%Q])
    as (results & hits & st' & H1 & H2 & H3 & H4 & _).
  - apply demo_ready_Ready.
  - intros H. apply Forall_cons in H as [H _]. discriminate H.
  - reflexivity.
  - reflexivity.
  - lia.
  - exists results, hits, st'. split; [exact H1|]. split; [exact H2|].
    split; [exact H3 | exact H4].
Defined.

(* ===================================================================== *)
(** * Queries with nothing to search *)
(* ===================================================================== *)

Lemma retrieve_blank_query `{faiss : Faiss} (st : State) (query : pystr) (top_k : Z) :
  Forall (fun c => is_space c = true) query →
  retrieve_relevant_chunks query top_k st = (inr [], st).
Proof.
  intros H. unfold retrieve_relevant_chunks.
  by rewrite (strip_spaces query H).
Qed.

Lemma retrieve_empty_state `{faiss : Faiss} (st : State) (query : pystr) (top_k : Z) :
  self_index (self st) = None ∨ self_chunks (self st) = [] →
  retrieve_relevant_chunks query top_k st = (inr [], st).
Proof.
  intros H. unfold retrieve_relevant_chunks.
  destruct (negb (truthy (strip query))); [done|].
  unfold bind, get_self. cbv beta iota.
  destruct (self_index (self st)) as [ix|]; [|done].
  destruct H as [H|H]; [done|]. by rewrite H.
Qed.

(** C8. A query that is empty or all whitespace returns the empty list and
    leaves the state as it was, in particular the record of the calls to
    the embedding model; so does any query on a retriever without an index
    or without chunks. No exception is raised in either case. *)
Theorem retrieve_nothing_to_search `{faiss : Faiss} (st : State) (query : pystr) (top_k : Z) :
  (Forall (fun c => is_space c = true) query →
   retrieve_relevant_chunks query top_k st = (inr [], st))
  ∧ (self_index (self st) = None ∨ self_chunks (self st) = [] →
     retrieve_relevant_chunks query top_k st = (inr [], st)).
Proof.
  split; [apply retrieve_blank_query | apply retrieve_empty_state].
Qed.

Lemma retrieve_nothing_to_search_witness :
  retrieve_relevant_chunks (faiss := demo_faiss) (lit "  ") 3 demo_ready = (inr [], demo_ready)
  ∧ retrieve_relevant_chunks (faiss := demo_faiss) (lit "anything") 3 demo_empty = (inr [], demo_empty).
Proof.
  split.
  - apply (proj1 (retrieve_nothing_to_search (faiss := demo_faiss) demo_ready (lit "  ") 3)).
    repeat constructor.
  - apply (proj2 (retrieve_nothing_to_search (faiss := demo_faiss) demo_empty (lit "anything") 3)).
    left. reflexivity.
Defined.

(* ===================================================================== *)
(** * Queries do not touch the stored chunks *)
(* ===================================================================== *)

Lemma retrieve_frame_run `{faiss : Faiss} (query : pystr) (top_k : Z) (st st' : State)
    (res : exn + list loc) :
  retrieve_relevant_chunks query top_k st = (res, st') →
  frame st st'
  ∧ ∀ results, res = inr results → Forall (fun l => store st !! l = None) results.
Proof.
  assert (Hnil : ∀ st1, frame st st1 →
            (inr [] : exn + list loc, st1) = (res, st') →
            frame st st'
            ∧ ∀ results, res = inr results →
                Forall (fun l => store st !! l = None) results).
  { intros st1 Hf [= <- <-]. split; [exact Hf|]. intros r [= <-]. constructor. }
  unfold retrieve_relevant_chunks.
  destruct (negb (truthy (strip query))); [apply Hnil, frame_refl|].
  unfold bind at 1. unfold get_self. cbv beta iota.
  destruct (self_index (self st)) as [ix|]; [|apply Hnil, frame_refl].
  destruct (length (self_chunks (self st)) =? 0)%nat; [apply Hnil, frame_refl|].
  unfold try_except, bind, model_encode. cbv beta iota.
  set (st1 := {| self := self st; store := store st;
                 encode_calls := encode_calls st ++ [[VStr query]] |}).
  assert (Hf1 : frame st st1) by (by split).
  destruct (self_model (self st) [VStr query]) as [qe|]; [|by apply Hnil].
  destruct (index_search ix qe _) as [e|found]; simpl lift; [by apply Hnil|].
  unfold ret at 1. cbv beta iota.
  destruct (py_index found.1 0) as [e|d0]; simpl lift; [by apply Hnil|].
  unfold ret at 1. cbv beta iota.
  destruct (py_index found.2 0) as [e|i0]; simpl lift; [by apply Hnil|].
  unfold ret at 1. cbv beta iota.
  pose proof (retrieve_loop_frame (zip d0 i0) 0 [] st1) as (Hf & _ & Hr).
  destruct (retrieve_loop (zip d0 i0) 0 [] st1) as [[e|r] st2] eqn:Hrun;
    simpl in Hf, Hr.
  - apply Hnil. by eapply frame_trans.
  - intros [= <- <-]. split; [by eapply frame_trans|].
    intros r' Heq. injection Heq as <-.
    destruct (Hr r eq_refl) as (new & -> & Hnew). simpl.
    eapply Forall_impl; [exact Hnew|]. by intros l [? _].
Qed.

Lemma retrieve_frame `{faiss : Faiss} (query : pystr) (top_k : Z) (st : State) :
  frame st (snd (retrieve_relevant_chunks query top_k st))
  ∧ ∀ results, fst (retrieve_relevant_chunks query top_k st) = inr results →
      Forall (fun l => store st !! l = None) results.
Proof.
  destruct (retrieve_relevant_chunks query top_k st) as [res st'] eqn:Hrun.
  by apply (retrieve_frame_run query top_k).
Qed.

Lemma run_queries_frame `{faiss : Faiss} (queries : list (pystr * Z)) :
  ∀ st, frame st (run_queries queries st).
Proof.
  induction queries as [|[query top_k] queries IH]; intros st; simpl.
  - apply frame_refl.
  - eapply frame_trans; [apply retrieve_frame | apply IH].
Qed.

(** C9. Whatever queries are run, the retriever's chunk list is the same
    list of references afterwards and every dictionary it refers to has
    the items it had; the results of a query are dictionaries that did not
    exist before it. *)
Theorem queries_leave_chunks_unchanged `{faiss : Faiss} (queries : list (pystr * Z)) (st : State) :
  self_chunks (self (run_queries queries st)) = self_chunks (self st)
  ∧ (∀ (l : loc) (d : dict),
       l ∈ self_chunks (self st) → store st !! l = Some d →
       store (run_queries queries st) !! l = Some d)
  ∧ (∀ query top_k results,
       fst (retrieve_relevant_chunks query top_k st) = inr results →
       Forall (fun l => store st !! l = None) results).
Proof.
  destruct (run_queries_frame queries st) as [Hself Hsub].
  split; [by rewrite Hself|]. split.
  - intros l d _ Hl. by eapply lookup_weaken.
  - intros query top_k. apply retrieve_frame.
Qed.

Lemma queries_leave_chunks_unchanged_witness :
  self_chunks (self (run_queries (faiss := demo_faiss) [(lit "gamma", 2); (lit "alpha", 1)] demo_ready))
  = self_chunks (self demo_ready)
  ∧ store (run_queries (faiss := demo_faiss) [(lit "gamma", 2); (lit "alpha", 1)] demo_ready) !! 1%nat
    = Some (demo_chunk 1 "gamma")
  ∧ Forall (fun l => store demo_ready !! l = None) [5%nat; 6%nat].
Proof.
  pose proof (queries_leave_chunks_unchanged (faiss := demo_faiss)
                [(lit "gamma", 2); (lit "alpha", 1)] demo_ready) as (H1 & H2 & H3).
  split; [exact H1|]. split.
  - apply H2; [|reflexivity].
    apply list_elem_of_In. vm_compute. right. left. reflexivity.
  - apply (H3 (lit "gamma") 2). vm_compute. reflexivity.
Defined.

(* ===================================================================== *)
(** * Building the index *)
(* ===================================================================== *)

(** C7, as the code has it. [build_faiss_index] never raises. Given a
    matrix of [N ≥ 1] vectors it replaces whatever index the retriever had
    by one over exactly these vectors, row [i] of the index being input
    vector [i]. Given zero vectors it builds nothing and leaves the
    retriever as it was: a retriever without an index, or without chunks,
    still answers every query with the empty list, and a ready retriever
    holding [N] chunks still answers from the index it had, with
    [min(top_k, N)] results for every query the model embeds. *)
Theorem build_faiss_index_replaces `{faiss : Faiss} (st : State) (m : matrix) :
  ∃ st',
    build_faiss_index (Some m) st = (inr tt, st')
    ∧ store st' = store st
    ∧ self_chunks (self st') = self_chunks (self st)
    ∧ (m ≠ [] →
       ∃ ix, self_index (self st') = Some ix
             ∧ ntotal ix = Z.of_nat (length m)
             ∧ ∀ i : nat, xb ix !! i = m !! i)
    ∧ (m = [] → st' = st)
    ∧ (m = [] → self_index (self st) = None ∨ self_chunks (self st) = [] →
       ∀ query top_k, retrieve_relevant_chunks query top_k st' = (inr [], st'))
    ∧ (m = [] →
       ∀ (ix : IndexFlatL2) (query : pystr) (top_k : Z) (qv : vec),
         Ready st ix →
         ¬ Forall (fun c => is_space c = true) query →
         self_model (self st) [VStr query] = Some [qv] →
         length qv = dim ix →
         1 ≤ top_k →
         ∃ results st'',
           retrieve_relevant_chunks query top_k st' = (inr results, st'')
           ∧ Z.of_nat (length results)
             = Z.min top_k (Z.of_nat (length (self_chunks (self st))))).
Proof.
  destruct m as [|row m].
  - exists st. split; [done|]. split; [done|]. split; [done|].
    split; [done|]. split; [done|]. split.
    + intros _ Hix query top_k. by apply retrieve_empty_state.
    + intros _ ix query top_k qv HR Hq Hmodel Hdim Hk.
      destruct (retrieve_ready_run st ix query top_k qv HR Hq Hmodel Hdim Hk)
        as (k & results & st'' & Hkdef & Hrun & _ & Hlen & _).
      exists results, st''. split; [exact Hrun|].
      destruct (search_row_spec ix k qv) as (Hklen & _).
      destruct HR as (_ & Hne & _).
      assert (0 < length (self_chunks (self st)))%nat.
      { destruct (self_chunks (self st)); [done | simpl; lia]. }
      rewrite Hlen, Hklen, Hkdef. lia.
  - exists (with_self (set_index (Some {| dim := length row; xb := row :: m |})) st).
    split; [reflexivity|]. simpl.
    split; [done|]. split; [done|]. split.
    + intros _. eexists. split; [reflexivity|]. done.
    + split; [|split]; intros; done.
Qed.

Lemma build_faiss_index_replaces_witness :
  ∃ st',
    build_faiss_index (Some [[1%Q; 2%Q]; [3%Q; 4%Q]]) demo_ready = (inr tt, st')
    ∧ ∃ ix, self_index (self st') = Some ix
            ∧ ntotal ix = 2
            ∧ ∀ i : nat, xb ix !! i = [[1%Q; 2%Q]; [3%Q; 4%Q]] !! i.
Proof.
  destruct (build_faiss_index_replaces (faiss := demo_faiss) demo_ready [[1%Q; 2%Q]; [3%Q; 4%Q]])
    as (st' & Hrun & _ & _ & Hix & _).
  exists st'. split; [exact Hrun|]. apply Hix. discriminate.
Defined.

(** C7, the claim as stated fails: building over zero vectors on a ready
    retriever leaves the index of two rows in place, and a search still
    returns a result. *)
Lemma build_over_zero_vectors_keeps_index :
  let st' := snd (build_faiss_index (Some []) demo_ready) in
  self_index (self st') = Some demo_index
  ∧ ntotal demo_index = 2
  ∧ fst (retrieve_relevant_chunks (faiss := demo_faiss) (lit "gamma") 1 st') = inr [5%nat]
  ∧ texts_at (snd (retrieve_relevant_chunks (faiss := demo_faiss) (lit "gamma") 1 st')) [5%nat]
    = [Some (VStr (lit "gamma"))].
Proof. vm_compute. repeat split; reflexivity. Qed.

(* ===================================================================== *)
(** * Ingestion when the embedding call raises *)
(* ===================================================================== *)

(** Reading the texts changes nothing and depends on the store only. *)
Lemma chunk_texts_eq (chunks : list loc) (st : State) :
  chunk_texts chunks st = (texts_of (store st) chunks, st).
Proof.
  induction chunks as [|c chunks IH]; simpl; [done|].
  unfold bind at 1. unfold load.
  destruct (store st !! c) as [d|]; [|done].
  unfold bind at 1.
  destruct (getitem d "text") as [e|t]; simpl lift; [done|].
  unfold ret at 1. unfold bind at 1. rewrite IH.
  by destruct (texts_of (store st) chunks).
Qed.

(** How [ingest] runs when the embedding call raises. *)
Lemma ingest_encode_raises (st : State) (chunks : list loc) (texts : list value) :
  chunks ≠ [] →
  texts_of (store st) chunks = inr texts →
  self_model (self st) texts = None →
  ingest chunks st
  = (inl EncodeError,
     {| self := set_chunks chunks (self st); store := store st;
        encode_calls := encode_calls st ++ [texts] |}).
Proof.
  intros Hne Htexts Hmodel.
  unfold ingest, create_embeddings.
  destruct chunks as [|c chunks]; [done|].
  unfold bind at 1 2. unfold modify_self. cbv beta iota.
  unfold bind at 1. rewrite chunk_texts_eq.
  change (store (with_self (set_chunks (c :: chunks)) st)) with (store st).
  rewrite Htexts.
  unfold try_except, bind, model_encode. cbv beta iota.
  change (self_model (self (with_self (set_chunks (c :: chunks)) st)))
    with (self_model (self st)).
  by rewrite Hmodel.
Qed.

(** The application ingests through [initialize_retrieval_system], which
    works on a retriever of its own: when the embedding call raises no
    retriever is returned. *)
Lemma initialize_retrieval_system_raises
    (load_model : pystr → option (list value → option matrix))
    (model : list value → option matrix)
    (chunks : list loc) (model_name : pystr) (heap : gmap loc dict)
    (texts : list value) :
  load_model model_name = Some model →
  chunks ≠ [] →
  texts_of heap chunks = inr texts →
  model texts = None →
  initialize_retrieval_system load_model chunks model_name heap
  = inl EncodeError.
Proof.
  intros Hload Hne Htexts Hmodel. unfold initialize_retrieval_system.
  rewrite Hload. destruct chunks as [|c rest]; [done|].
  by rewrite (ingest_encode_raises
                {| self := new_retriever model_name model; store := heap;
                   encode_calls := [] |} (c :: rest) texts Hne Htexts Hmodel).
Qed.

(** C1, as the code has it. When the embedding call raises on the texts of
    a non-empty list of chunks, the exception reaches the caller and the
    index, the embedding matrix and the store are the ones before the call,
    but the chunk list is the new one. A retriever that had no index still
    answers every query with the empty list. *)
Theorem failed_ingest_state `{faiss : Faiss} (st : State) (chunks : list loc) (texts : list value) :
  chunks ≠ [] →
  texts_of (store st) chunks = inr texts →
  self_model (self st) texts = None →
  ∃ st',
    ingest chunks st = (inl EncodeError, st')
    ∧ self_index (self st') = self_index (self st)
    ∧ self_embeddings (self st') = self_embeddings (self st)
    ∧ store st' = store st
    ∧ self_chunks (self st') = chunks
    ∧ (self_index (self st) = None →
       ∀ query top_k, fst (retrieve_relevant_chunks query top_k st') = inr []).
Proof.
  intros Hne Htexts Hmodel.
  eexists. split; [by apply ingest_encode_raises|].
  simpl. repeat (split; [done|]).
  intros Hix query top_k. rewrite retrieve_empty_state; [done|].
  left. exact Hix.
Qed.

Lemma failed_ingest_state_witness :
  ∃ st',
    ingest [2%nat; 3%nat; 4%nat] demo_ready = (inl EncodeError, st')
    ∧ self_index (self st') = self_index (self demo_ready)
    ∧ self_embeddings (self st') = self_embeddings (self demo_ready)
    ∧ store st' = store demo_ready
    ∧ self_chunks (self st') = [2%nat; 3%nat; 4%nat].
Proof.
  destruct (failed_ingest_state (faiss := demo_faiss) demo_ready [2%nat; 3%nat; 4%nat]
              [VStr (lit "delta"); VStr (lit "epsilon zeta eta"); VStr (lit "theta")])
    as (st' & H1 & H2 & H3 & H4 & H5 & _).
  - discriminate.
  - vm_compute. reflexivity.
  - reflexivity.
  - exists st'. repeat split; assumption.
Defined.

(** C1, the claim as stated fails: after a re-ingest whose embedding call
    raises, the ready retriever holds the three new chunks against the
    index built for the two old ones, and a query returns the texts of new
    chunks for the rows of old ones (the third result comes from the
    padding row id [-1], which Python reads as the last chunk). *)
Lemma failed_ingest_replaces_chunks :
  let st' := snd (ingest [2%nat; 3%nat; 4%nat] demo_ready) in
  fst (ingest [2%nat; 3%nat; 4%nat] demo_ready) = inl EncodeError
  ∧ self_chunks (self demo_ready) = [0%nat; 1%nat]
  ∧ self_chunks (self st') = [2%nat; 3%nat; 4%nat]
  ∧ self_index (self st') = Some demo_index
  ∧ fst (retrieve_relevant_chunks (faiss := demo_faiss) (lit "gamma") 3 st') = inr [5%nat; 6%nat; 7%nat]
  ∧ texts_at (snd (retrieve_relevant_chunks (faiss := demo_faiss) (lit "gamma") 3 st')) [5%nat; 6%nat; 7%nat]
    = [Some (VStr (lit "epsilon zeta eta")); Some (VStr (lit "delta"));
       Some (VStr (lit "theta"))].
Proof. vm_compute. repeat split; reflexivity. Qed.

(* ===================================================================== *)
(** * More on strings: trimmed strings, joining and splitting again *)
(* ===================================================================== *)

Lemma rev_nil_inv {A} (l : list A) : rev l = [] → l = [].
Proof.
  intros E. apply (f_equal (@rev A)) in E. by rewrite rev_involutive in E.
Qed.

Lemma lstrip_nonspace (c : N) (s : pystr) :
  is_space c = false → lstrip (c :: s) = c :: s.
Proof. intros H. simpl. by rewrite H. Qed.

Lemma lstrip_length (s : pystr) : (length (lstrip s) ≤ length s)%nat.
Proof.
  induction s as [|c s IH]; simpl; [lia|].
  destruct (is_space c); simpl; lia.
Qed.

(** What [lstrip] leaves is empty or starts with a code point that is not
    whitespace. *)
Lemma lstrip_head (s : pystr) :
  lstrip s = [] ∨ ∃ c t, lstrip s = c :: t ∧ is_space c = false.
Proof.
  induction s as [|c s IH]; simpl; [by left|].
  destruct (is_space c) eqn:Hc; [exact IH|]. right. by exists c, s.
Qed.

(** [lstrip] removes a prefix of whitespace. *)
Lemma lstrip_prefix (s : pystr) :
  ∃ sp, s = sp ++ lstrip s ∧ Forall (fun c => is_space c = true) sp.
Proof.
  induction s as [|c s (sp & Hs & Hsp)]; simpl.
  - exists []. by split.
  - destruct (is_space c) eqn:Hc.
    + exists (c :: sp). split; [simpl; congruence | by constructor].
    + exists []. by split.
Qed.

(** A string stripped on both sides. *)
Lemma strip_fixed (s : pystr) :
  lstrip s = s → lstrip (rev s) = rev s → strip s = s.
Proof.
  intros H1 H2. unfold strip, rstrip. rewrite H1, H2. apply rev_involutive.
Qed.

Lemma strip_ends (s : pystr) :
  lstrip (strip s) = strip s ∧ lstrip (rev (strip s)) = rev (strip s).
Proof.
  unfold strip, rstrip. rewrite rev_involutive.
  set (u := lstrip s). set (v := lstrip (rev u)).
  split.
  - destruct (lstrip_prefix (rev u)) as (sp & Hu & Hsp). fold v in Hu.
    assert (Eu : u = rev v ++ rev sp).
    { rewrite <- (rev_involutive u), Hu. by rewrite rev_app_distr. }
    destruct (rev v) as [|c t] eqn:Ev; [done|].
    destruct (lstrip_head s) as [E|(c' & t' & E & Hc')]; fold u in E.
    + rewrite E in Eu. discriminate.
    + rewrite E in Eu. simpl in Eu. injection Eu as -> _.
      by apply lstrip_nonspace.
  - destruct (lstrip_head (rev u)) as [E|(c & t & E & Hc)]; fold v in E.
    + by rewrite E.
    + rewrite E. by apply lstrip_nonspace.
Qed.


Lemma join_snoc (sep : pystr) (parts : list pystr) (p : pystr) :
  parts ≠ [] → join sep (parts ++ [p]) = join sep parts ++ sep ++ p.
Proof.
  induction parts as [|q parts IH]; [done|]. intros _.
  destruct parts as [|q' parts]; [done|].
  change (join sep ((q :: q' :: parts) ++ [p]))
    with (q ++ sep ++ join sep ((q' :: parts) ++ [p])).
  rewrite IH by done.
  change (join sep (q :: q' :: parts)) with (q ++ sep ++ join sep (q' :: parts)).
  by rewrite <- !app_assoc.
Qed.

Lemma solid_head (p : pystr) :
  solid p → ∃ c t, p = c :: t ∧ is_space c = false.
Proof.
  intros (Hne & Hl & _). destruct (lstrip_head p) as [E|(c & t & E & Hc)].
  - rewrite Hl in E. done.
  - rewrite Hl in E. by exists c, t.
Qed.

Lemma solid_last (p : pystr) :
  solid p → ∃ c t, rev p = c :: t ∧ is_space c = false.
Proof.
  intros (Hne & _ & Hr). destruct (lstrip_head (rev p)) as [E|(c & t & E & Hc)].
  - rewrite Hr in E. by apply rev_nil_inv in E.
  - rewrite Hr in E. by exists c, t.
Qed.

Lemma word_ok_solid (w : pystr) : word_ok w → solid w.
Proof.
  intros [Hne Hall]. split; [exact Hne|]. split.
  - destruct w as [|c t]; [done|]. apply Forall_cons in Hall as [Hc _].
    by apply lstrip_nonspace.
  - apply Forall_rev in Hall. destruct (rev w) as [|c t] eqn:E; [done|].
    apply Forall_cons in Hall as [Hc _]. by apply lstrip_nonspace.
Qed.

Lemma strip_solid (s : pystr) : strip s ≠ [] → solid (strip s).
Proof. intros H. split; [exact H|]. apply strip_ends. Qed.

(** Joining solid parts gives a string with nothing to strip. *)
Lemma strip_join_solid (sep : pystr) (parts : list pystr) :
  Forall solid parts → strip (join sep parts) = join sep parts.
Proof.
  intros Hall. destruct parts as [|p parts]; [done|].
  apply strip_fixed.
  - apply Forall_cons in Hall as [Hp _].
    destruct (solid_head p Hp) as (c & t & -> & Hc).
    destruct parts; simpl; by rewrite Hc.
  - destruct (exists_last (l := p :: parts)) as (init & q & E); [done|].
    rewrite E in *. apply Forall_app in Hall as [_ Hq].
    apply Forall_cons in Hq as [Hq _].
    destruct (solid_last q Hq) as (c & t & Eq & Hc).
    destruct init as [|p0 init].
    + simpl. rewrite Eq. by apply lstrip_nonspace.
    + rewrite join_snoc by done. rewrite !rev_app_distr, Eq.
      simpl. by rewrite Hc.
Qed.

Lemma split_aux_word (w cur rest : pystr) :
  Forall (fun c => is_space c = false) w →
  split_aux cur (w ++ rest) = split_aux (rev w ++ cur) rest.
Proof.
  revert cur. induction w as [|c w IH]; intros cur Hw; [done|].
  apply Forall_cons in Hw as [Hc Hw]. simpl. rewrite Hc.
  rewrite IH by done. by rewrite <- app_assoc.
Qed.

(** Splitting a join of words on single spaces gives the words back. *)
Lemma split_join_words (ws : list pystr) :
  Forall word_ok ws → split (join (lit " ") ws) = ws.
Proof.
  unfold split. induction 1 as [|w ws [Hne Hw] Hws IH]; [done|].
  destruct ws as [|w' ws].
  - simpl. rewrite <- (app_nil_r w) at 1. rewrite (split_aux_word w [] [] Hw).
    rewrite app_nil_r. simpl.
    destruct (rev w) eqn:E.
    + by apply rev_nil_inv in E.
    + by rewrite <- E, rev_involutive.
  - change (join (lit " ") (w :: w' :: ws))
      with (w ++ lit " " ++ join (lit " ") (w' :: ws)).
    rewrite (split_aux_word w [] _ Hw). rewrite app_nil_r.
    change (lit " " ++ join (lit " ") (w' :: ws))
      with (32%N :: join (lit " ") (w' :: ws)).
    simpl split_aux at 1. change (is_space 32) with true. cbv iota.
    destruct (rev w) eqn:E.
    + by apply rev_nil_inv in E.
    + rewrite <- E, rev_involutive. f_equal. exact IH.
Qed.

(* ===================================================================== *)
(** * chunk_text: which words go into which chunk *)
(* ===================================================================== *)

Lemma py_slice_clamp {A} (l : list A) (a b : Z) :
  0 ≤ b → py_slice l a (Z.min b (Z.of_nat (length l))) = py_slice l a b.
Proof.
  intros Hb. unfold py_slice. f_equal. f_equal. f_equal.
  unfold clamp_index.
  destruct (Z.ltb_spec (Z.min b (Z.of_nat (length l))) 0); [lia|].
  destruct (Z.ltb_spec b 0); lia.
Qed.

(** Reading a slice with bounds [0 ≤ a ≤ b], wherever they fall. *)
Lemma py_slice_lookup {A} (l : list A) (a b : Z) (k : nat) :
  0 ≤ a ≤ b →
  py_slice l a b !! k
  = if decide (Z.of_nat k < b - a) then l !! (Z.to_nat a + k)%nat else None.
Proof.
  intros Hab. unfold py_slice, clamp_index.
  destruct (Z.ltb_spec a 0); [lia|]. destruct (Z.ltb_spec b 0); [lia|].
  set (n := Z.of_nat (length l)).
  destruct (decide (Z.of_nat k < b - a)) as [Hk|Hk].
  - destruct (decide (Z.to_nat a + k < length l)%nat) as [Hin|Hout].
    + rewrite lookup_take_lt by (unfold n; lia).
      rewrite lookup_drop. f_equal. unfold n. lia.
    + rewrite (lookup_ge_None_2 l (Z.to_nat a + k)) by lia.
      apply lookup_ge_None_2. rewrite length_take, length_drop. unfold n. lia.
  - apply lookup_take_ge. unfold n. lia.
Qed.

Lemma window_lookup (words : list pystr) (chunk_size overlap : Z) (i k : nat) :
  0 ≤ overlap < chunk_size →
  window words chunk_size overlap i !! k
  = if decide (Z.of_nat k < chunk_size)
    then words !! (Z.to_nat (Z.of_nat i * (chunk_size - overlap)) + k)%nat
    else None.
Proof.
  intros HO. unfold window. rewrite py_slice_lookup by nia.
  destruct (decide (Z.of_nat k < chunk_size));
    destruct (decide (Z.of_nat k < _)); try done; lia.
Qed.

Lemma window_length (words : list pystr) (chunk_size overlap : Z) (i : nat) :
  0 ≤ overlap < chunk_size →
  (Z.of_nat (length (window words chunk_size overlap i)) ≤ chunk_size).
Proof.
  intros HO.
  destruct (decide (Z.of_nat (length (window words chunk_size overlap i))
                    ≤ chunk_size)) as [|Hbig]; [done|].
  exfalso.
  destruct (lookup_lt_is_Some_2 (window words chunk_size overlap i)
              (Z.to_nat chunk_size)) as [w Hw]; [lia|].
  rewrite window_lookup in Hw by done.
  destruct (decide _) as [Hlt|]; [lia | done].
Qed.

(** The loop entered at [start] appends the windows that start at [start],
    [start + (chunk_size - overlap)], and so on, each joined on single
    spaces. *)
Lemma chunk_loop_windows (words : list pystr) (chunk_size overlap : Z) :
  Forall word_ok words → 0 ≤ overlap < chunk_size →
  ∀ (fuel : nat) (start : Z) (chunks : list pystr),
    0 ≤ start → start + overlap < Z.of_nat (length words) →
    (Z.to_nat (Z.of_nat (length words) - start) ≤ fuel)%nat →
    ∃ new,
      chunk_loop fuel words chunk_size overlap start chunks = Some (chunks ++ new)
      ∧ Z.of_nat (length new)
        = ceil_div (Z.of_nat (length words) - start - overlap)
                   (chunk_size - overlap)
      ∧ ∀ (j : nat) (c : pystr), new !! j = Some c →
          c = join (lit " ")
                (py_slice words
                   (start + Z.of_nat j * (chunk_size - overlap))
                   (start + Z.of_nat j * (chunk_size - overlap) + chunk_size)).
Proof.
  intros Hwords HO. set (W := Z.of_nat (length words)).
  induction fuel as [|fuel IH]; intros start chunks Hs Hlt Hfuel; [lia|].
  cbn [chunk_loop]. unfold chunk_body.
  rewrite (py_slice_clamp words start (start + chunk_size)) by lia.
  fold W.
  destruct (Z.ltb_spec start W) as [_|]; [|lia].
  set (ws := py_slice words start (start + chunk_size)).
  assert (Hws : Forall word_ok ws) by (by apply py_slice_Forall).
  assert (Hne : ws ≠ []).
  { intros E.
    pose proof (py_slice_lookup words start (start + chunk_size) 0 ltac:(lia)) as Hl.
    fold ws in Hl. rewrite E in Hl. case_decide; [|lia].
    destruct (lookup_lt_is_Some_2 words (Z.to_nat start + 0)) as [w Hw];
      [unfold W in *; lia|]. rewrite Hw in Hl. discriminate. }
  rewrite (strip_join_words (lit " ") ws Hne Hws).
  rewrite (strip_join_solid (lit " ") ws)
    by (eapply Forall_impl; [exact Hws | apply word_ok_solid]).
  destruct (Z.leb_spec W (Z.min (start + chunk_size) W)) as [Hend|Hend].
  - exists [join (lit " ") ws]. split; [reflexivity|]. split.
    + simpl. symmetry. apply ceil_div_one. lia.
    + intros [|j] c Hc; [|done]. injection Hc as <-.
      unfold ws. f_equal. f_equal; lia.
  - rewrite Z.min_l in * by lia.
    destruct (Z.leb_spec (start + chunk_size - overlap) 0) as [|_]; [lia|].
    destruct (IH (start + chunk_size - overlap) (chunks ++ [join (lit " ") ws]))
      as (new & Hrun & Hlen & Hnew); [lia | lia | lia |].
    exists (join (lit " ") ws :: new). split.
    + rewrite Hrun. by rewrite <- app_assoc.
    + split.
      * rewrite (ceil_div_step (W - start - overlap)) by lia.
        simpl length. rewrite Nat2Z.inj_succ, Hlen.
        replace (W - (start + chunk_size - overlap) - overlap)
          with (W - start - overlap - (chunk_size - overlap)) by lia.
        lia.
      * intros [|j] c Hc; simpl in Hc.
        -- injection Hc as <-. unfold ws. f_equal. f_equal; lia.
        -- rewrite (Hnew j c Hc). f_equal. f_equal; lia.
Qed.

(** [chunk_text] on a text of more words than the window. *)
Lemma chunk_text_windows_run (text : pystr) (chunk_size overlap : Z) (fuel : nat) :
  0 ≤ overlap < chunk_size →
  chunk_size < Z.of_nat (length (split text)) →
  (length (split text) ≤ fuel)%nat →
  ∃ chunks,
    chunk_text fuel text chunk_size overlap = Some chunks
    ∧ Z.of_nat (length chunks)
      = ceil_div (Z.of_nat (length (split text)) - overlap) (chunk_size - overlap)
    ∧ ∀ (i : nat) (c : pystr), chunks !! i = Some c →
        c = join (lit " ") (window (split text) chunk_size overlap i).
Proof.
  intros HO HW Hfuel. unfold chunk_text.
  destruct text as [|c0 text]; [simpl in HW; lia|]. simpl negb. cbv iota.
  destruct (Z.leb_spec (Z.of_nat (length (split (c0 :: text)))) chunk_size); [lia|].
  destruct (chunk_loop_windows (split (c0 :: text)) chunk_size overlap
              (split_words _) HO fuel 0 []) as (new & Hrun & Hlen & Hnew);
    [lia | lia | lia |].
  exists new. split; [exact Hrun|]. split.
  - rewrite Hlen. f_equal. lia.
  - intros i c Hc. rewrite (Hnew i c Hc). unfold window.
    by rewrite !Z.add_0_l.
Qed.

(** X1. With [0 ≤ overlap < chunk_size] and a text of more than
    [chunk_size] words, the [i]-th chunk (from 0) is the words
    [words[i*(S-O) : i*(S-O)+S]] of the text joined by single spaces,
    whatever whitespace separated them in the text; splitting a chunk gives
    those words back. *)
Theorem chunk_text_windows (text : pystr) (chunk_size overlap : Z) (fuel : nat) :
  0 ≤ overlap < chunk_size →
  chunk_size < Z.of_nat (length (split text)) →
  (length (split text) ≤ fuel)%nat →
  ∃ chunks,
    chunk_text fuel text chunk_size overlap = Some chunks
    ∧ ∀ (i : nat) (c : pystr), chunks !! i = Some c →
        c = join (lit " ") (window (split text) chunk_size overlap i)
        ∧ split c = window (split text) chunk_size overlap i.
Proof.
  intros HO HW Hfuel.
  destruct (chunk_text_windows_run text chunk_size overlap fuel HO HW Hfuel)
    as (chunks & Hrun & _ & Hwin).
  exists chunks. split; [exact Hrun|].
  intros i c Hc. rewrite (Hwin i c Hc). split; [done|].
  apply split_join_words. unfold window. apply py_slice_Forall, split_words.
Qed.

Lemma chunk_text_windows_witness :
  ∃ chunks,
    chunk_text 7 (lit "a b  c d e f g") 3 1 = Some chunks
    ∧ ∀ (i : nat) (c : pystr), chunks !! i = Some c →
        c = join (lit " ") (window (split (lit "a b  c d e f g")) 3 1 i)
        ∧ split c = window (split (lit "a b  c d e f g")) 3 1 i.
Proof.
  apply (chunk_text_windows (lit "a b  c d e f g") 3 1 7).
  - lia.
  - vm_compute. reflexivity.
  - vm_compute. lia.
Defined.

(** The windows of a text chunked with [0 ≤ overlap < chunk_size]: every
    window below the count starts inside the text. *)
Lemma window_starts_inside (W chunk_size overlap : Z) (i : nat) :
  0 ≤ overlap < chunk_size → chunk_size < W →
  Z.of_nat i < ceil_div (W - overlap) (chunk_size - overlap) →
  Z.of_nat i * (chunk_size - overlap) + overlap < W.
Proof.
  intros HO HW Hi.
  pose proof (ceil_div_spec (W - overlap) (chunk_size - overlap)) as Hc.
  nia.
Qed.

(** X2. Under the same conditions every chunk holds at least one and at
    most [chunk_size] words. *)
Theorem chunk_text_chunk_sizes (text : pystr) (chunk_size overlap : Z)
    (fuel : nat) :
  0 ≤ overlap < chunk_size →
  chunk_size < Z.of_nat (length (split text)) →
  (length (split text) ≤ fuel)%nat →
  ∃ chunks,
    chunk_text fuel text chunk_size overlap = Some chunks
    ∧ Forall (fun c => 1 ≤ Z.of_nat (length (split c)) ≤ chunk_size) chunks.
Proof.
  intros HO HW Hfuel.
  destruct (chunk_text_windows_run text chunk_size overlap fuel HO HW Hfuel)
    as (chunks & Hrun & Hlen & Hwin).
  exists chunks. split; [exact Hrun|].
  apply Forall_lookup. intros i c Hc.
  rewrite (Hwin i c Hc).
  rewrite split_join_words
    by (unfold window; apply py_slice_Forall, split_words).
  split; [|by apply window_length].
  pose proof (lookup_lt_Some _ _ _ Hc) as Hi.
  pose proof (window_starts_inside _ chunk_size overlap i HO HW ltac:(lia)) as Hin.
  destruct (lookup_lt_is_Some_2 (split text)
              (Z.to_nat (Z.of_nat i * (chunk_size - overlap)) + 0)) as [w Hw];
    [nia|].
  pose proof (window_lookup (split text) chunk_size overlap i 0 HO) as Hl.
  destruct (decide _) as [_|]; [|lia]. rewrite Hw in Hl.
  apply lookup_lt_Some in Hl. lia.
Qed.

Lemma chunk_text_chunk_sizes_witness :
  ∃ chunks,
    chunk_text 7 (lit "a b  c d e f g") 3 1 = Some chunks
    ∧ Forall (fun c => 1 ≤ Z.of_nat (length (split c)) ≤ 3) chunks.
Proof.
  apply (chunk_text_chunk_sizes (lit "a b  c d e f g") 3 1 7).
  - lia.
  - vm_compute. reflexivity.
  - vm_compute. lia.
Defined.

(** X3. Under the same conditions no word is lost: the [j]-th word of the
    text is a word of some chunk, at the position its window gives it. *)
Theorem chunk_text_covers (text : pystr) (chunk_size overlap : Z) (fuel : nat) :
  0 ≤ overlap < chunk_size →
  chunk_size < Z.of_nat (length (split text)) →
  (length (split text) ≤ fuel)%nat →
  ∃ chunks,
    chunk_text fuel text chunk_size overlap = Some chunks
    ∧ ∀ (j : nat) (w : pystr), split text !! j = Some w →
        ∃ (i : nat) (c : pystr),
          chunks !! i = Some c
          ∧ (Z.of_nat i * (chunk_size - overlap) ≤ Z.of_nat j)
          ∧ split c !! (j - Z.to_nat (Z.of_nat i * (chunk_size - overlap)))%nat
            = Some w.
Proof.
  intros HO HW Hfuel.
  destruct (chunk_text_windows_run text chunk_size overlap fuel HO HW Hfuel)
    as (chunks & Hrun & Hlen & Hwin).
  exists chunks. split; [exact Hrun|].
  intros j w Hj. pose proof (lookup_lt_Some _ _ _ Hj) as Hjlt.
  set (W := Z.of_nat (length (split text))) in *.
  set (d := chunk_size - overlap) in *.
  set (n := ceil_div (W - overlap) d) in *.
  pose proof (ceil_div_spec (W - overlap) d ltac:(unfold d; lia)) as Hn. fold n in Hn.
  set (i := Z.to_nat (Z.min (Z.of_nat j / d) (n - 1))).
  assert (Hn1 : 1 ≤ n) by (unfold d in *; nia).
  assert (Hq : 0 ≤ Z.of_nat j / d) by (apply Z.div_pos; unfold d; lia).
  assert (Hi : Z.of_nat i = Z.min (Z.of_nat j / d) (n - 1)) by (unfold i; lia).
  assert (Hlo : Z.of_nat i * d ≤ Z.of_nat j).
  { pose proof (Z.mul_div_le (Z.of_nat j) d ltac:(unfold d; lia)). nia. }
  assert (Hhi : Z.of_nat j < Z.of_nat i * d + chunk_size).
  { destruct (Z.le_gt_cases (Z.of_nat j / d) (n - 1)) as [Hle|Hgt].
    - rewrite Z.min_l in Hi by lia.
      pose proof (Z.mod_pos_bound (Z.of_nat j) d ltac:(unfold d; lia)).
      pose proof (Z.div_mod (Z.of_nat j) d ltac:(unfold d; lia)).
      unfold d in *. nia.
    - rewrite Z.min_r in Hi by lia. unfold d in *. nia. }
  destruct (lookup_lt_is_Some_2 chunks i) as [c Hc]; [lia|].
  exists i, c. split; [exact Hc|]. split; [exact Hlo|].
  rewrite (Hwin i c Hc).
  rewrite split_join_words
    by (unfold window; apply py_slice_Forall, split_words).
  rewrite window_lookup by done. fold d.
  destruct (decide _) as [_|]; [|lia].
  rewrite <- Hj. f_equal. lia.
Qed.

Lemma chunk_text_covers_witness :
  ∃ chunks,
    chunk_text 7 (lit "a b  c d e f g") 3 1 = Some chunks
    ∧ ∃ (i : nat) (c : pystr),
        chunks !! i = Some c
        ∧ (Z.of_nat i * (3 - 1) ≤ Z.of_nat 5)
        ∧ split c !! (5 - Z.to_nat (Z.of_nat i * (3 - 1)))%nat = Some (lit "f").
Proof.
  destruct (chunk_text_covers (lit "a b  c d e f g") 3 1 7)
    as (chunks & Hrun & Hcover).
  - lia.
  - vm_compute. reflexivity.
  - vm_compute. lia.
  - exists chunks. split; [exact Hrun|]. apply (Hcover 5%nat). reflexivity.
Defined.

(** X4. Under the same conditions consecutive chunks share [overlap]
    words: the words of a chunk after its first [chunk_size - overlap] are
    the first [overlap] words of the next chunk. *)
Theorem chunk_text_overlap (text : pystr) (chunk_size overlap : Z) (fuel : nat) :
  0 ≤ overlap < chunk_size →
  chunk_size < Z.of_nat (length (split text)) →
  (length (split text) ≤ fuel)%nat →
  ∃ chunks,
    chunk_text fuel text chunk_size overlap = Some chunks
    ∧ ∀ (i : nat) (c c' : pystr),
        chunks !! i = Some c → chunks !! S i = Some c' →
        drop (Z.to_nat (chunk_size - overlap)) (split c)
        = take (Z.to_nat overlap) (split c')
        ∧ length (take (Z.to_nat overlap) (split c')) = Z.to_nat overlap.
Proof.
  intros HO HW Hfuel.
  destruct (chunk_text_windows_run text chunk_size overlap fuel HO HW Hfuel)
    as (chunks & Hrun & Hlen & Hwin).
  exists chunks. split; [exact Hrun|].
  intros i c c' Hc Hc'.
  rewrite (Hwin i c Hc), (Hwin (S i) c' Hc').
  rewrite !split_join_words
    by (unfold window; apply py_slice_Forall, split_words).
  assert (Hnext : ∀ k : nat, Z.of_nat k < overlap →
            is_Some (window (split text) chunk_size overlap (S i) !! k)).
  { intros k Hk. rewrite window_lookup by done.
    destruct (decide _) as [_|]; [|lia].
    apply lookup_lt_is_Some_2.
    pose proof (lookup_lt_Some _ _ _ Hc') as Hi.
    pose proof (window_starts_inside _ chunk_size overlap (S i) HO HW ltac:(lia)).
    lia. }
  split.
  - apply list_eq. intros k. rewrite lookup_drop.
    destruct (decide (Z.of_nat k < overlap)) as [Hk|Hk].
    + rewrite lookup_take_lt by lia. rewrite !window_lookup by done.
      destruct (decide _) as [_|]; [|lia]. destruct (decide _) as [_|]; [|lia].
      f_equal.
      assert (0 ≤ Z.of_nat i * (chunk_size - overlap)) by nia.
      replace (Z.of_nat (S i) * (chunk_size - overlap))
        with (Z.of_nat i * (chunk_size - overlap) + (chunk_size - overlap)) by lia.
      lia.
    + rewrite lookup_take_ge by lia. rewrite window_lookup by done.
      destruct (decide _) as [|_]; [lia | done].
  - rewrite length_take.
    destruct (decide (overlap = 0)) as [->|Hpos]; [done|].
    destruct (Hnext (Z.to_nat overlap - 1)%nat ltac:(lia)) as [w Hw].
    apply lookup_lt_Some in Hw. lia.
Qed.

Lemma chunk_text_overlap_witness :
  ∃ chunks,
    chunk_text 7 (lit "a b  c d e f g") 3 1 = Some chunks
    ∧ ∀ (i : nat) (c c' : pystr),
        chunks !! i = Some c → chunks !! S i = Some c' →
        drop (Z.to_nat (3 - 1)) (split c) = take (Z.to_nat 1) (split c')
        ∧ length (take (Z.to_nat 1) (split c')) = Z.to_nat 1.
Proof.
  apply (chunk_text_overlap (lit "a b  c d e f g") 3 1 7).
  - lia.
  - vm_compute. reflexivity.
  - vm_compute. lia.
Defined.

(* ===================================================================== *)
(** * chunk_text: termination and fuel *)
(* ===================================================================== *)

(** A run that ended keeps its result when given more fuel. *)
Lemma chunk_loop_more_fuel (words : list pystr) (chunk_size overlap : Z) :
  ∀ (fuel fuel' : nat) (start : Z) (chunks r : list pystr),
    chunk_loop fuel words chunk_size overlap start chunks = Some r →
    (fuel ≤ fuel')%nat →
    chunk_loop fuel' words chunk_size overlap start chunks = Some r.
Proof.
  induction fuel as [|fuel IH]; intros fuel' start chunks r Hrun Hle; [done|].
  destruct fuel' as [|fuel']; [lia|].
  cbn [chunk_loop] in *.
  destruct (start <? Z.of_nat (length words)); [|done].
  destruct (chunk_body words chunk_size overlap start chunks); [|done].
  apply IH; [done | lia].
Qed.

Lemma chunk_text_more_fuel (text : pystr) (chunk_size overlap : Z)
    (fuel fuel' : nat) (r : list pystr) :
  chunk_text fuel text chunk_size overlap = Some r →
  (fuel ≤ fuel')%nat →
  chunk_text fuel' text chunk_size overlap = Some r.
Proof.
  unfold chunk_text. destruct (negb (truthy text)); [done|].
  destruct (_ <=? chunk_size); [done|]. apply chunk_loop_more_fuel.
Qed.

Lemma chunk_loop_terminates (words : list pystr) (chunk_size overlap : Z) :
  overlap < chunk_size →
  ∀ (fuel : nat) (start : Z) (chunks : list pystr),
    0 ≤ start →
    (Z.to_nat (Z.of_nat (length words) - start) < fuel)%nat →
    ∃ r, chunk_loop fuel words chunk_size overlap start chunks = Some r.
Proof.
  intros HO. set (W := Z.of_nat (length words)).
  induction fuel as [|fuel IH]; intros start chunks Hs Hfuel; [lia|].
  cbn [chunk_loop]. fold W.
  destruct (Z.ltb_spec start W) as [Hlt|]; [|by eexists].
  unfold chunk_body. fold W.
  set (chunks' := if truthy _ then _ else _).
  destruct (Z.leb_spec W (Z.min (start + chunk_size) W)) as [|Hend]; [by eexists|].
  rewrite Z.min_l in * by lia.
  destruct (Z.leb_spec (start + chunk_size - overlap) 0); [lia|].
  apply IH; lia.
Qed.

(** X5. Whenever [overlap < chunk_size], of whatever sign, [chunk_text]
    returns: one pass of the loop more than the text has words is always
    enough. *)
Theorem chunk_text_terminates (text : pystr) (chunk_size overlap : Z)
    (fuel : nat) :
  overlap < chunk_size →
  (length (split text) < fuel)%nat →
  ∃ chunks, chunk_text fuel text chunk_size overlap = Some chunks.
Proof.
  intros HO Hfuel. unfold chunk_text.
  destruct (negb (truthy text)); [by eexists|].
  destruct (_ <=? chunk_size); [by eexists|].
  apply chunk_loop_terminates; [done | lia | lia].
Qed.

Lemma chunk_text_terminates_witness :
  ∃ chunks, chunk_text 6 (lit "a b c d e") 1 (-2) = Some chunks.
Proof.
  apply (chunk_text_terminates (lit "a b c d e") 1 (-2) 6).
  - lia.
  - vm_compute. lia.
Defined.

(** With the default window and overlap a text that is not blank always
    gives at least one chunk, none of them blank. *)
Lemma chunk_text_default_chunks (text : pystr) (fuel : nat) (chunks : list pystr) :
  strip text ≠ [] →
  chunk_text fuel text 500 100 = Some chunks →
  chunks ≠ [] ∧ Forall (fun c => strip c ≠ []) chunks.
Proof.
  intros Hblank Hrun.
  assert (Htext : text ≠ []) by (by intros ->).
  apply (chunk_text_more_fuel _ _ _ _ (Nat.max fuel (length (split text))))
    in Hrun; [|lia].
  destruct (Z.le_gt_cases (Z.of_nat (length (split text))) 500) as [Hle|Hgt].
  - destruct (chunk_text_runs text 500 100
                (Nat.max fuel (length (split text))) Htext)
      as (chunks' & Hrun' & Hone & _); [lia | lia |].
    rewrite Hrun in Hrun'. injection Hrun' as <-.
    rewrite (Hone Hle). split; [done|]. by repeat constructor.
  - destruct (chunk_text_windows_run text 500 100
                (Nat.max fuel (length (split text))))
      as (chunks' & Hrun' & Hlen & Hwin); [lia | lia | lia |].
    rewrite Hrun in Hrun'. injection Hrun' as <-.
    pose proof (ceil_div_spec (Z.of_nat (length (split text)) - 100) (500 - 100)
                  ltac:(lia)) as Hc.
    split.
    + intros ->. simpl in Hlen. lia.
    + apply Forall_lookup. intros i c Hc'.
      rewrite (Hwin i c Hc').
      pose proof (lookup_lt_Some _ _ _ Hc') as Hi.
      pose proof (window_starts_inside _ 500 100 i ltac:(lia) Hgt ltac:(lia)) as Hin.
      assert (Hne : window (split text) 500 100 i ≠ []).
      { intros E.
        pose proof (window_lookup (split text) 500 100 i 0 ltac:(lia)) as Hl.
        rewrite E in Hl. case_decide; [|lia].
        destruct (lookup_lt_is_Some_2 (split text)
                    (Z.to_nat (Z.of_nat i * (500 - 100)) + 0)) as [w Hw]; [lia|].
        rewrite Hw in Hl. discriminate. }
      pose proof (strip_join_words (lit " ") _ Hne
                    (py_slice_Forall word_ok (split text) _ _ (split_words text)))
        as Ht.
      unfold window in *. intros E. rewrite E in Ht. discriminate Ht.
Qed.

(* ===================================================================== *)
(** * Extraction and the batch processor, further *)
(* ===================================================================== *)

Section MorePdf.
Context `{rt : Runtime}.




Lemma no_text_message_solid : solid no_text_message.
Proof. split; [done|]. split; reflexivity. Qed.

Lemma extract_text_from_pdf_result_empty (f : UploadedFile) :
  content f = [] ∨ fitz_open (content f) = None →
  extract_text_from_pdf f = [].
Proof.
  unfold extract_text_from_pdf. intros [E|E].
  - by rewrite E.
  - destruct (content f); [done|]. simpl Nat.eqb. cbv iota. by rewrite E.
Qed.


Lemma extract_text_from_dict_parts (text_dict : TextDict) :
  ∃ parts, extract_text_from_dict text_dict = join nl parts ∧ Forall solid parts.
Proof.
  unfold extract_text_from_dict. eexists. split; [reflexivity|].
  apply Forall_forall. intros p Hp. apply list_elem_of_In in Hp.
  apply in_flat_map in Hp as (block & _ & Hp).
  destruct (block_lines block) as [lines|]; [|done].
  apply in_flat_map in Hp as (line & _ & Hp).
  destruct (truthy (strip (line_text line))) eqn:Ht; [|done].
  destruct Hp as [<-|[]]. apply strip_solid. by destruct (strip _).
Qed.

Lemma line_parts (lines : list Line) :
  flat_map (fun line =>
              let line_text := line_text line in
              if truthy (strip line_text) then [strip line_text] else []) lines
  = (fun line => strip (line_text line))
    <$> filter (fun line => ¬ blank_line line) lines.
Proof.
  induction lines as [|line lines IH]; [done|].
  simpl flat_map. cbv zeta.
  destruct (truthy (strip (line_text line))) eqn:E.
  - rewrite filter_cons_True by (by apply strip_truthy_nonspace).
    rewrite fmap_cons. cbn [app]. f_equal. exact IH.
  - rewrite filter_cons_False; [exact IH|].
    intros Hnb. apply strip_truthy_nonspace in Hnb. congruence.
Qed.

Lemma block_parts (blocks : list DictBlock) :
  flat_map
    (fun block =>
       match block_lines block with
       | None => []
       | Some lines =>
           flat_map
             (fun line =>
                let line_text := line_text line in
                if truthy (strip line_text) then [strip line_text] else [])
             lines
       end) blocks
  = (fun line => strip (line_text line))
    <$> filter (fun line => ¬ blank_line line)
          (flat_map (fun block => default [] (block_lines block)) blocks).
Proof.
  induction blocks as [|block blocks IH]; [done|].
  simpl flat_map. rewrite filter_app, fmap_app, <- IH. f_equal.
  destruct (block_lines block) as [lines|]; [apply line_parts | done].
Qed.

Lemma filter_blank_lines (lines : list Line) :
  Forall blank_line lines → filter (fun line => ¬ blank_line line) lines = [].
Proof.
  induction 1 as [|line lines Hb _ IH]; [done|].
  rewrite filter_cons_False; [exact IH|]. by intros Hnb.
Qed.

(** X7. The text [extract_text_from_dict] builds is the stripped texts of
    the lines that are not blank, in reading order and joined by newlines;
    it has no whitespace at either end. Blocks without ["lines"] and lines
    whose spans hold only whitespace leave no trace: the text is the same
    with a block removed that has no line, or only blank ones. *)
Theorem extract_text_from_dict_lines (text_dict : TextDict) :
  extract_text_from_dict text_dict
  = join nl ((fun line => strip (line_text line))
             <$> filter (fun line => ¬ blank_line line) (dict_lines text_dict))
  ∧ strip (extract_text_from_dict text_dict) = extract_text_from_dict text_dict
  ∧ (∀ (blocks1 : list DictBlock) (block : DictBlock) (blocks2 : list DictBlock),
       dict_blocks text_dict = Some (blocks1 ++ block :: blocks2) →
       Forall blank_line (default [] (block_lines block)) →
       extract_text_from_dict text_dict
       = extract_text_from_dict {| dict_blocks := Some (blocks1 ++ blocks2) |}).
Proof.
  assert (Hlines : ∀ td, extract_text_from_dict td
            = join nl ((fun line => strip (line_text line))
                       <$> filter (fun line => ¬ blank_line line) (dict_lines td))).
  { intros td. unfold extract_text_from_dict, dict_lines. cbv zeta.
    by rewrite block_parts. }
  split; [apply Hlines|]. split.
  - destruct (extract_text_from_dict_parts text_dict) as (parts & E & Hsolid).
    rewrite E. by apply strip_join_solid.
  - intros blocks1 block blocks2 Hblocks Hblank.
    rewrite !Hlines. unfold dict_lines. rewrite Hblocks. simpl.
    rewrite !flat_map_app. simpl flat_map.
    rewrite !filter_app, (filter_blank_lines _ Hblank). done.
Qed.

(** X8. A PDF whose bytes cannot be read or opened is recorded as failed
    with the reason ["No text content found"] and gives no chunk, whatever
    the fuel. *)
Theorem unreadable_pdf_failed (f : UploadedFile) (fuel : nat) (file_idx : Z) :
  endswith (str_lower (name f)) (lit ".pdf") = true →
  file_size f ≠ 0 →
  content f = [] ∨ fitz_open (content f) = None →
  process_file fuel file_idx f
  = Some ([], status_entry (name f) "failed" "No text content found").
Proof.
  intros Hpdf Hsize Hbad. unfold process_file. rewrite Hpdf. simpl negb. cbv iota.
  destruct (Z.eqb_spec (file_size f) 0); [done|].
  assert (E : extract_text_from_pdf f = []).
  { apply (extract_text_from_pdf_result_empty f). tauto. }
  by rewrite E.
Qed.

(** X9. Whatever the fuel, when the body of the loop completes for a file
    it has recorded one of four entries: skipped as not a PDF, failed as an
    empty file, failed for lack of text (each without chunks), or success
    with at least one chunk, none blank. The fourth failure the code
    provides for, ["Could not create text chunks"], is never recorded. *)
Theorem process_file_entry_forms (fuel : nat) (file_idx : Z) (f : UploadedFile)
    (cs : list dict) (e : dict) :
  process_file fuel file_idx f = Some (cs, e) →
  (cs = []
   ∧ (e = status_entry (name f) "skipped" "Not a PDF file"
      ∨ e = status_entry (name f) "failed" "Empty file"
      ∨ e = status_entry (name f) "failed" "No text content found"))
  ∨ (∃ chunks text_length,
       chunks ≠ []
       ∧ Forall (fun c => strip c ≠ []) chunks
       ∧ e = success_entry (name f) (Z.of_nat (length chunks)) text_length
       ∧ cs = imap (fun chunk_idx chunk =>
                      chunk_data (name f) (Z.of_nat chunk_idx) chunk
                        file_idx text_length) chunks).
Proof.
  unfold process_file.
  destruct (negb (endswith (str_lower (name f)) (lit ".pdf"))).
  { intros [= <- <-]. left. split; [done|]. by left. }
  destruct (file_size f =? 0).
  { intros [= <- <-]. left. split; [done|]. right. by left. }
  set (text := extract_text_from_pdf f).
  destruct (negb (truthy text) || (len (strip text) =? 0)) eqn:Hblank.
  { intros [= <- <-]. left. split; [done|]. right. by right. }
  assert (Hstrip : strip text ≠ []).
  { intros E. rewrite E in Hblank. by rewrite orb_true_r in Hblank. }
  destruct (chunk_text fuel text 500 100) as [chunks|] eqn:Hrun; [|done].
  destruct (chunk_text_default_chunks text fuel chunks Hstrip Hrun) as [Hne Hall].
  destruct chunks as [|chunk chunks]; [done|].
  intros [= <- <-]. right. by exists (chunk :: chunks), (len text).
Qed.

(** The chunks one file contributes. *)
Lemma process_file_chunks (fuel : nat) (file_idx : Z) (f : UploadedFile)
    (cs : list dict) (e : dict) :
  process_file fuel file_idx f = Some (cs, e) →
  ∀ (j : nat) (c : dict), cs !! j = Some c →
    ∃ chunk text_length,
      c = chunk_data (name f) (Z.of_nat j) chunk file_idx text_length
      ∧ strip chunk ≠ [].
Proof.
  unfold process_file.
  destruct (negb (endswith (str_lower (name f)) (lit ".pdf"))).
  { by intros [= <- <-] j c Hc. }
  destruct (file_size f =? 0).
  { by intros [= <- <-] j c Hc. }
  set (text := extract_text_from_pdf f).
  destruct (negb (truthy text) || (len (strip text) =? 0)) eqn:Hblank.
  { by intros [= <- <-] j c Hc. }
  assert (Hstrip : strip text ≠ []).
  { intros E. rewrite E in Hblank. by rewrite orb_true_r in Hblank. }
  destruct (chunk_text fuel text 500 100) as [chunks|] eqn:Hrun; [|done].
  destruct (chunk_text_default_chunks text fuel chunks Hstrip Hrun) as [Hne Hall].
  destruct chunks as [|chunk0 chunks]; [done|].
  intros Heq j c Hc. injection Heq as E1 _.
  change (imap (fun chunk_idx chunk =>
                  chunk_data (name f) (Z.of_nat chunk_idx) chunk file_idx (len text))
               (chunk0 :: chunks) = cs) in E1.
  rewrite <- E1, list_lookup_imap in Hc.
  destruct ((chunk0 :: chunks) !! j) as [chunk|] eqn:Hj; [|done].
  injection Hc as <-. exists chunk, (len text). split; [done|].
  by apply (proj1 (Forall_lookup _ _) Hall j).
Qed.

Lemma chunk_data_record (filename chunk : pystr) (chunk_idx file_idx n : Z) :
  chunk_record (chunk_data filename chunk_idx chunk file_idx n).
Proof. repeat split; eexists; reflexivity. Qed.

Lemma chunk_data_key (filename chunk : pystr) (chunk_idx file_idx n : Z) :
  chunk_key (chunk_data filename chunk_idx chunk file_idx n)
  = (Some (VInt file_idx), Some (VInt chunk_idx)).
Proof. reflexivity. Qed.

(** The chunks the loop appends from position [file_idx] on. *)
Lemma process_loop_chunks (fuel : nat) (files : list UploadedFile) :
  ∀ (file_idx : Z) (all_chunks results all_chunks' results' : list dict),
    process_loop fuel file_idx files all_chunks results
    = Some (all_chunks', results') →
    ∃ new,
      all_chunks' = all_chunks ++ new
      ∧ Forall (fun c => chunk_record c
                         ∧ ∃ t, c !! "text" = Some (VStr t) ∧ strip t ≠ []) new
      ∧ NoDup (chunk_key <$> new)
      ∧ Forall (fun c => ∃ fi ci, chunk_key c = (Some (VInt fi), Some (VInt ci))
                                  ∧ file_idx ≤ fi) new.
Proof.
  induction files as [|f files IH]; intros file_idx acc res acc' res'; simpl.
  - intros [= <- <-]. exists []. rewrite app_nil_r.
    split; [done|]. split; [constructor|]. split; constructor.
  - destruct (process_file fuel file_idx f) as [[cs e]|] eqn:Hfile; [|done].
    intros Hloop.
    destruct (IH _ _ _ _ _ Hloop) as (new & -> & Hgood & Hnodup & Hkeys).
    pose proof (process_file_chunks fuel file_idx f cs e Hfile) as Hcs.
    exists (cs ++ new). split; [by rewrite app_assoc|].
    assert (Hcskeys : ∀ j c, cs !! j = Some c →
              chunk_key c = (Some (VInt file_idx), Some (VInt (Z.of_nat j)))).
    { intros j c Hc. destruct (Hcs j c Hc) as (chunk & n & -> & _).
      apply chunk_data_key. }
    split.
    { apply Forall_app. split; [|exact Hgood].
      apply Forall_lookup. intros j c Hc.
      destruct (Hcs j c Hc) as (chunk & n & -> & Hchunk).
      split; [apply chunk_data_record|]. by exists chunk. }
    split.
    { rewrite fmap_app. apply NoDup_app. split; [|split; [|exact Hnodup]].
      - apply NoDup_alt. intros i j k Hi Hj.
        rewrite list_lookup_fmap in Hi, Hj.
        destruct (cs !! i) as [ci|] eqn:Ei; [|done].
        destruct (cs !! j) as [cj|] eqn:Ej; [|done].
        simpl in Hi, Hj. rewrite (Hcskeys i ci Ei) in Hi.
        rewrite (Hcskeys j cj Ej) in Hj. rewrite <- Hj in Hi.
        injection Hi as Hi. lia.
      - intros k Hk Hk'.
        apply list_elem_of_fmap in Hk as (c & -> & Hc).
        apply list_elem_of_fmap in Hk' as (c' & Eq & Hc').
        apply list_elem_of_lookup in Hc as [j Hj].
        rewrite (Hcskeys j c Hj) in Eq.
        destruct (proj1 (Forall_forall _ _) Hkeys c' Hc') as (fi & ci & Hkey & Hfi).
        rewrite Hkey in Eq. injection Eq as Eq _. lia. }
    apply Forall_app. split.
    + apply Forall_lookup. intros j c Hc. eexists _, _.
      split; [by apply Hcskeys | lia].
    + eapply Forall_impl; [exact Hkeys|].
      intros c (fi & ci & Hkey & Hfi). exists fi, ci. split; [done | lia].
Qed.

(** X10. Every chunk [process_uploaded_pdfs] returns has a string
    [filename], an integer [chunk_index] and a [text] that is not blank,
    and no two chunks of the list have the same pair of [file_index] and
    [chunk_index]. *)
Theorem process_uploaded_pdfs_chunks (fuel : nat) (files : list UploadedFile)
    (chunks : list dict) :
  process_uploaded_pdfs fuel files = Some chunks →
  Forall (fun c => chunk_record c
                   ∧ ∃ t, c !! "text" = Some (VStr t) ∧ strip t ≠ []) chunks
  ∧ NoDup (chunk_key <$> chunks).
Proof.
  unfold process_uploaded_pdfs.
  destruct (process_loop fuel 0 files [] []) as [[all_chunks results]|] eqn:Hloop;
    [|done].
  intros [= <-].
  destruct (process_loop_chunks fuel files 0 [] [] all_chunks results Hloop)
    as (new & -> & Hgood & Hnodup & _).
  done.
Qed.

End MorePdf.

Lemma extract_text_from_dict_lines_witness :
  extract_text_from_dict demo_text_dict
  = extract_text_from_dict
      {| dict_blocks := Some
           [ {| block_lines := None |};
             {| block_lines := Some
                  [ {| line_spans := Some [ {| span_text := Some (lit " Hello") |};
                                            {| span_text := None |};
                                            {| span_text := Some (lit " world ") |} ] |};
                    {| line_spans := None |} ] |};
             {| block_lines := Some
                  [ {| line_spans := Some [ {| span_text := Some (lit "Bye") |} ] |} ] |} ] |}.
Proof.
  apply (proj2 (proj2 (extract_text_from_dict_lines demo_text_dict))
           [ {| block_lines := None |};
             {| block_lines := Some
                  [ {| line_spans := Some [ {| span_text := Some (lit " Hello") |};
                                            {| span_text := None |};
                                            {| span_text := Some (lit " world ") |} ] |};
                    {| line_spans := None |} ] |} ]
           {| block_lines := Some
                [ {| line_spans := Some [ {| span_text := Some (lit "  ") |} ] |} ] |}
           [ {| block_lines := Some
                  [ {| line_spans := Some [ {| span_text := Some (lit "Bye") |} ] |} ] |} ]).
  - reflexivity.
  - repeat constructor.
Defined.

(** The text of the example: two lines. *)
Lemma extract_text_from_dict_example :
  extract_text_from_dict demo_text_dict = lit "Hello world" ++ nl ++ lit "Bye".
Proof. reflexivity. Qed.


Lemma unreadable_pdf_failed_witness :
  process_file (rt := demo_runtime) 0 4 broken_pdf
  = Some ([], status_entry (lit "broken.pdf") "failed" "No text content found").
Proof.
  apply (unreadable_pdf_failed (rt := demo_runtime) broken_pdf 0 4).
  - reflexivity.
  - discriminate.
  - right. reflexivity.
Defined.

Lemma process_file_entry_forms_witness :
  ∃ (chunks : list pystr) (text_length : Z),
    chunks ≠ []
    ∧ success_entry (lit "Hello.PDF") 1 11
      = success_entry (name hello_pdf) (Z.of_nat (length chunks)) text_length.
Proof.
  destruct (process_file_entry_forms (rt := demo_runtime) 1 0 hello_pdf
              [chunk_data (lit "Hello.PDF") 0 (lit "Hello world") 0 11]
              (success_entry (lit "Hello.PDF") 1 11))
    as [[Hnil _]|(chunks & n & Hne & _ & He & _)].
  - vm_compute. reflexivity.
  - discriminate Hnil.
  - by exists chunks, n.
Defined.

Lemma process_uploaded_pdfs_chunks_witness :
  NoDup (chunk_key <$>
           [chunk_data (lit "Hello.PDF") 0 (lit "Hello world") 0 11;
            chunk_data (lit "Hello.PDF") 0 (lit "Hello world") 2 11]).
Proof.
  apply (process_uploaded_pdfs_chunks (rt := demo_runtime) 2
           [hello_pdf; empty_pdf; hello_pdf]).
  vm_compute. reflexivity.
Defined.

(* ===================================================================== *)
(** * get_processing_stats *)
(* ===================================================================== *)

Lemma getitems_length (key : string) (ds : list dict) (vs : list value) :
  getitems key ds = inr vs → length vs = length ds.
Proof.
  revert vs. induction ds as [|d ds IH]; intros vs; simpl.
  - by intros [= <-].
  - destruct (getitem d key); [done|].
    destruct (getitems key ds) as [|vs']; [done|].
    intros [= <-]. simpl. by rewrite (IH vs' eq_refl).
Qed.

(** Reading a key from every dictionary fails only with [KeyError], and
    only when some dictionary lacks the key. *)
Lemma getitems_result (key : string) (ds : list dict) :
  (Forall (fun d : dict => is_Some (d !! key)) ds →
   ∃ vs, getitems key ds = inr vs
         ∧ ∀ i d, ds !! i = Some d → d !! key = vs !! i)
  ∧ ((∃ d : dict, d ∈ ds ∧ d !! key = None) → getitems key ds = inl KeyError).
Proof.
  induction ds as [|d ds [IH1 IH2]]; simpl.
  - split.
    + intros _. exists []. split; [done|]. intros i d Hi. by rewrite lookup_nil in Hi.
    + intros (d & Hd & _). by apply elem_of_nil in Hd.
  - unfold getitem. split.
    + intros Hall. apply Forall_cons in Hall as [[v Hv] Hall].
      destruct (IH1 Hall) as (vs & -> & Hvs). rewrite Hv.
      exists (v :: vs). split; [done|].
      intros [|i] d' Hi; simpl in *; [by injection Hi as <- | by apply Hvs].
    + intros (d' & Hin & Hnone).
      destruct (d !! key) as [v|] eqn:Hv; [|done].
      apply elem_of_cons in Hin as [->|Hin]; [congruence|].
      rewrite IH2; [done|]. by exists d'.
Qed.

Lemma bump_sum (file_stats : list (value * Z)) (filename : value) :
  sum_counts (bump file_stats filename) = sum_counts file_stats + 1.
Proof.
  unfold sum_counts.
  induction file_stats as [|[k n] rest IH]; simpl; [done|].
  destruct (py_eqb k filename); simpl; lia.
Qed.

Lemma bump_keys (file_stats : list (value * Z)) (filename : value) :
  map fst (bump file_stats filename) = set_add (map fst file_stats) filename.
Proof.
  unfold set_add.
  induction file_stats as [|[k n] rest IH]; simpl; [done|].
  destruct (py_eqb k filename); simpl; [done|].
  rewrite IH. by destruct (existsb _ _).
Qed.

Lemma foldl_bump (filenames : list value) :
  ∀ file_stats,
    sum_counts (foldl bump file_stats filenames)
    = sum_counts file_stats + Z.of_nat (length filenames)
    ∧ map fst (foldl bump file_stats filenames)
      = foldl set_add (map fst file_stats) filenames.
Proof.
  induction filenames as [|k ks IH]; intros file_stats; simpl.
  - split; [lia | done].
  - destruct (IH (bump file_stats k)) as [-> ->].
    rewrite bump_sum, bump_keys. split; [lia | done].
Qed.

Lemma sum_text_lens_total (chunks : list dict) (total : Z) :
  sum_text_lens chunks = inr total →
  total = foldr Z.add 0 (map (fun c => Z.of_nat (length (text_of c))) chunks).
Proof.
  revert total. induction chunks as [|c chunks IH]; intros total; simpl.
  - by intros [= <-].
  - unfold getitem, text_of at 1.
    destruct (c !! "text") as [v|]; [|done].
    destruct v as [s| |]; simpl; try done.
    destruct (sum_text_lens chunks) as [|n]; [done|].
    intros [= <-]. by rewrite (IH n eq_refl).
Qed.

Lemma sum_text_lens_records (chunks : list dict) :
  Forall chunk_record chunks → ∃ total, sum_text_lens chunks = inr total.
Proof.
  induction 1 as [|c chunks (_ & _ & (s & Hs)) _ [n IH]]; simpl; [by eexists|].
  unfold getitem. rewrite Hs. simpl. rewrite IH. by eexists.
Qed.

Section StatsTheorems.
Variable py_round : Q → Z → Q.

(** X11. When [get_processing_stats] returns for a list that is not empty,
    [total_chunks] is the length of the list, the counts of
    [file_breakdown] add up to it, [total_files] is the number of entries
    of [file_breakdown], and [total_characters] is the sum of the lengths
    of the texts; for the empty list only the three zero fields are
    returned. *)
Theorem get_processing_stats_counts (chunks : list dict) (stats : ProcessingStats) :
  get_processing_stats py_round chunks = inr stats →
  total_chunks stats = Z.of_nat (length chunks)
  ∧ match file_breakdown stats with
    | None => chunks = [] ∧ total_files stats = 0 ∧ total_characters stats = None
    | Some file_stats =>
        chunks ≠ []
        ∧ sum_counts file_stats = total_chunks stats
        ∧ total_files stats = Z.of_nat (length file_stats)
        ∧ total_characters stats
          = Some (foldr Z.add 0
                    (map (fun c => Z.of_nat (length (text_of c))) chunks))
    end.
Proof.
  unfold get_processing_stats.
  destruct chunks as [|c chunks]; [by intros [= <-]|].
  set (cs := c :: chunks).
  destruct (getitems "filename" cs) as [|filenames] eqn:Hf; [done|].
  destruct (sum_text_lens cs) as [|total] eqn:Hs; [done|].
  intros [= <-]. simpl.
  destruct (foldl_bump filenames []) as [Hsum Hkeys].
  split; [done|]. split; [done|]. split.
  { rewrite Hsum. rewrite (getitems_length _ _ _ Hf). unfold sum_counts. simpl. lia. }
  split.
  { unfold py_set. rewrite <- (length_map fst (foldl bump [] filenames)).
    by rewrite Hkeys. }
  f_equal. by apply (sum_text_lens_total cs).
Qed.

Lemma get_processing_stats_records (chunks : list dict) :
  Forall chunk_record chunks →
  ∃ stats, get_processing_stats py_round chunks = inr stats
           ∧ total_chunks stats = Z.of_nat (length chunks).
Proof.
  unfold get_processing_stats.
  intros Hall. destruct chunks as [|c chunks]; [by eexists|].
  set (cs := c :: chunks) in *.
  destruct (proj1 (getitems_result "filename" cs)) as (fs & -> & _).
  { eapply Forall_impl; [exact Hall|]. intros d ((s & ->) & _). by eexists. }
  destruct (sum_text_lens_records cs Hall) as [n Hsum]. rewrite Hsum.
  by eexists.
Qed.

(** X12. On chunk records [get_processing_stats] raises nothing; a
    dictionary without ["filename"] anywhere in the list makes it raise
    [KeyError]. *)
Theorem get_processing_stats_raises (chunks : list dict) :
  (Forall chunk_record chunks →
   ∃ stats, get_processing_stats py_round chunks = inr stats)
  ∧ ((∃ c : dict, c ∈ chunks ∧ c !! "filename" = None) →
     get_processing_stats py_round chunks = inl KeyError).
Proof.
  split.
  - intros Hall. destruct (get_processing_stats_records chunks Hall) as (stats & H & _).
    by exists stats.
  - unfold get_processing_stats.
    intros (c & Hin & Hnone). destruct chunks as [|c0 chunks].
    { by apply elem_of_nil in Hin. }
    rewrite (proj2 (getitems_result "filename" (c0 :: chunks))); [done|].
    by exists c.
Qed.

Section Pipeline.
Context `{rt : Runtime}.

(** X24. What [process_uploaded_pdfs] returns can always be handed to
    [get_processing_stats]: it raises nothing and reports as
    [total_chunks] the number of chunks returned. *)
Theorem processed_chunks_have_stats (fuel : nat) (files : list UploadedFile)
    (chunks : list dict) :
  process_uploaded_pdfs fuel files = Some chunks →
  ∃ stats, get_processing_stats py_round chunks = inr stats
           ∧ total_chunks stats = Z.of_nat (length chunks).
Proof.
  unfold process_uploaded_pdfs.
  destruct (process_loop fuel 0 files [] []) as [[all_chunks results]|] eqn:Hloop;
    [|done].
  intros [= <-].
  destruct (process_loop_chunks fuel files 0 [] [] all_chunks results Hloop)
    as (new & -> & Hgood & _).
  apply get_processing_stats_records. simpl.
  eapply Forall_impl; [exact Hgood|]. by intros c [? _].
Qed.

End Pipeline.

End StatsTheorems.

Lemma get_processing_stats_counts_witness :
  ∃ stats,
    get_processing_stats (fun q _ => q)
      [demo_chunk 0 "alpha beta"; demo_chunk 1 "gamma"] = inr stats
    ∧ total_chunks stats = 2
    ∧ total_files stats = 1.
Proof.
  eexists. split; [vm_compute; reflexivity|].
  pose proof (get_processing_stats_counts (fun q _ => q)
                [demo_chunk 0 "alpha beta"; demo_chunk 1 "gamma"] _ eq_refl)
    as [H1 H2].
  split; [exact H1|]. simpl in H2. apply H2.
Defined.

Lemma processed_chunks_have_stats_witness :
  ∃ stats,
    get_processing_stats (fun q _ => q)
      [chunk_data (lit "Hello.PDF") 0 (lit "Hello world") 0 11;
       chunk_data (lit "Hello.PDF") 0 (lit "Hello world") 2 11] = inr stats
    ∧ total_chunks stats = 2.
Proof.
  apply (processed_chunks_have_stats (fun q _ => q) (rt := demo_runtime) 2
           [hello_pdf; empty_pdf; hello_pdf]).
  vm_compute. reflexivity.
Defined.

Lemma get_processing_stats_raises_witness :
  get_processing_stats (fun q _ => q) [demo_chunk 0 "alpha beta"; ∅]
  = inl KeyError.
Proof.
  apply (proj2 (get_processing_stats_raises (fun q _ => q)
                  [demo_chunk 0 "alpha beta"; ∅])).
  exists ∅. split; [|reflexivity].
  apply list_elem_of_In. right. left. reflexivity.
Defined.

(* ===================================================================== *)
(** * format_retrieved_chunks and get_chunk_sources *)
(* ===================================================================== *)

Section MoreFormatting.
Context `{rt : Runtime}.

Lemma formatted_part_record (i : Z) (chunk : dict) :
  chunk_record chunk → formatted_part i chunk = inr (context_block i chunk).
Proof.
  intros ((fn & Hfn) & (n & Hn) & (t & Ht)).
  unfold formatted_part, context_block, getitem, filename_of, index_of, text_of.
  by rewrite Hfn, Hn, Ht.
Qed.

Lemma formatted_parts_records (chunks : list dict) :
  Forall chunk_record chunks →
  ∀ i, formatted_parts i chunks
       = inr (imap (fun j chunk => context_block (i + Z.of_nat j) chunk) chunks).
Proof.
  induction 1 as [|chunk chunks Hc _ IH]; intros i; simpl; [done|].
  rewrite (formatted_part_record i chunk Hc), IH. rewrite Z.add_0_r.
  do 2 f_equal. apply imap_ext. intros j c _. simpl. f_equal. lia.
Qed.

(** X13. On chunk records [format_retrieved_chunks] raises nothing and
    returns, joined by a newline, one block per chunk in the order of the
    list, numbered from 1: the line ["Context i:"], the line
    ["[Source: filename, Section n+1]"] for chunk index [n], the text and a
    newline. For the empty list it returns the empty string. *)
Theorem format_retrieved_chunks_blocks (chunks : list dict) :
  Forall chunk_record chunks →
  format_retrieved_chunks chunks
  = inr (join nl (imap (fun j chunk => context_block (Z.of_nat j + 1) chunk)
                       chunks)).
Proof.
  intros Hall. unfold format_retrieved_chunks.
  destruct chunks as [|c chunks]; [done|].
  rewrite (formatted_parts_records _ Hall 1).
  do 2 f_equal. apply imap_ext. intros j d _. simpl. f_equal. lia.
Qed.

Lemma formatted_part_missing (i : Z) (chunk : dict) :
  well_typed_chunk chunk →
  chunk !! "filename" = None ∨ chunk !! "chunk_index" = None
  ∨ chunk !! "text" = None →
  formatted_part i chunk = inl KeyError.
Proof.
  intros [Hidx Htext] Hmissing. unfold formatted_part, getitem.
  destruct (chunk !! "filename") as [fn|]; [|done].
  destruct (chunk !! "chunk_index") as [v|] eqn:Ei; [|done].
  destruct (Hidx v eq_refl) as [n ->]. simpl.
  destruct (chunk !! "text") as [t|]; [|done].
  destruct Hmissing as [|[|]]; done.
Qed.

Lemma formatted_part_well_typed (i : Z) (chunk : dict) :
  well_typed_chunk chunk →
  formatted_part i chunk = inl KeyError ∨ ∃ part, formatted_part i chunk = inr part.
Proof.
  intros [Hidx Htext]. unfold formatted_part, getitem.
  destruct (chunk !! "filename") as [fn|]; [|by left].
  destruct (chunk !! "chunk_index") as [v|] eqn:Ei; [|by left].
  destruct (Hidx v eq_refl) as [n ->]. simpl.
  destruct (chunk !! "text") as [t|]; [|by left].
  right. by eexists.
Qed.

Lemma formatted_parts_missing (chunks : list dict) :
  Forall well_typed_chunk chunks →
  (∃ c : dict, c ∈ chunks
               ∧ (c !! "filename" = None ∨ c !! "chunk_index" = None
                  ∨ c !! "text" = None)) →
  ∀ i, formatted_parts i chunks = inl KeyError.
Proof.
  induction 1 as [|chunk chunks Hc Hall IH]; intros (c & Hin & Hmiss) i.
  { by apply elem_of_nil in Hin. }
  simpl. apply elem_of_cons in Hin as [->|Hin].
  - by rewrite formatted_part_missing.
  - destruct (formatted_part_well_typed i chunk Hc) as [->|[part ->]]; [done|].
    rewrite IH; [done|]. by exists c.
Qed.

Lemma get_chunk_sources_well_typed (chunks : list dict) :
  Forall well_typed_chunk chunks → ∃ sources, get_chunk_sources chunks = inr sources.
Proof.
  induction 1 as [|chunk chunks Hc _ [sources IH]]; simpl; [by eexists|].
  rewrite (chunk_source_well_typed chunk Hc), IH. by eexists.
Qed.

(** X14. The two renderings treat a missing key differently: on a list of
    well-typed records one of which lacks ["filename"], ["chunk_index"] or
    ["text"], [format_retrieved_chunks] raises [KeyError] while
    [get_chunk_sources] returns its sources with the defaults. *)
Theorem format_retrieved_chunks_missing_key (chunks : list dict) :
  Forall well_typed_chunk chunks →
  (∃ c : dict, c ∈ chunks
               ∧ (c !! "filename" = None ∨ c !! "chunk_index" = None
                  ∨ c !! "text" = None)) →
  format_retrieved_chunks chunks = inl KeyError
  ∧ ∃ sources, get_chunk_sources chunks = inr sources.
Proof.
  intros Hall Hmiss. split; [|by apply get_chunk_sources_well_typed].
  unfold format_retrieved_chunks. destruct chunks as [|c chunks].
  { destruct Hmiss as (c & Hin & _). by apply elem_of_nil in Hin. }
  by rewrite formatted_parts_missing.
Qed.

(** The two items a query adds to a copy do not show in its rendering. *)
Lemma tagged_lookup (d : dict) (distance : Q) (rank : Z) (key : string) :
  key ≠ "rank" → key ≠ "similarity_score" →
  tagged d distance rank !! key = d !! key.
Proof.
  intros H1 H2. unfold tagged.
  rewrite lookup_insert_ne by done. by rewrite lookup_insert_ne.
Qed.

Lemma tagged_chunk_record (d : dict) (distance : Q) (rank : Z) :
  chunk_record d → chunk_record (tagged d distance rank).
Proof.
  unfold chunk_record. by rewrite !tagged_lookup.
Qed.

Lemma chunk_source_tagged (d : dict) (distance : Q) (rank : Z) :
  chunk_source (tagged d distance rank) = chunk_source d.
Proof.
  unfold chunk_source, dict_get. by rewrite !tagged_lookup.
Qed.

Lemma context_block_tagged (i : Z) (d : dict) (distance : Q) (rank : Z) :
  context_block i (tagged d distance rank) = context_block i d.
Proof.
  unfold context_block, filename_of, index_of, text_of.
  by rewrite !tagged_lookup.
Qed.

End MoreFormatting.

Lemma format_retrieved_chunks_blocks_witness :
  format_retrieved_chunks (rt := demo_runtime) [demo_chunk 3 "alpha beta"]
  = inr (lit "Context 1:" ++ nl ++ lit "[Source: notes.pdf, Section 4]" ++ nl
         ++ lit "alpha beta" ++ nl).
Proof.
  rewrite (format_retrieved_chunks_blocks (rt := demo_runtime)
             [demo_chunk 3 "alpha beta"]).
  - vm_compute. reflexivity.
  - repeat constructor; eexists; reflexivity.
Defined.

Lemma format_retrieved_chunks_missing_key_witness :
  format_retrieved_chunks (rt := demo_runtime) [demo_chunk 3 "alpha beta"; ∅]
  = inl KeyError
  ∧ ∃ sources,
      get_chunk_sources (rt := demo_runtime) [demo_chunk 3 "alpha beta"; ∅]
      = inr sources.
Proof.
  apply (format_retrieved_chunks_missing_key (rt := demo_runtime)
           [demo_chunk 3 "alpha beta"; ∅]).
  - repeat constructor.
    + intros v H. vm_compute in H. injection H as <-. eexists. reflexivity.
    + intros v H. vm_compute in H. injection H as <-. eexists. reflexivity.
    + intros v H. rewrite lookup_empty in H. discriminate.
    + intros v H. rewrite lookup_empty in H. discriminate.
  - exists ∅. split; [|left; reflexivity].
    apply list_elem_of_In. right. left. reflexivity.
Defined.

(* ===================================================================== *)
(** * The flat index: the hits are the nearest rows *)
(* ===================================================================== *)
(** * The retriever: ingestion, statistics and the content of results *)
(* ===================================================================== *)

Lemma texts_of_stored (h : gmap loc dict) (chunks : list loc) (texts : list value) :
  texts_of h chunks = inr texts →
  Forall (fun l => is_Some (h !! l)) chunks ∧ length texts = length chunks.
Proof.
  revert texts. induction chunks as [|c chunks IH]; intros texts; simpl.
  - by intros [= <-].
  - destruct (h !! c) as [d|] eqn:Hc; [|done].
    destruct (getitem d "text"); [done|].
    destruct (texts_of h chunks) as [|ts]; [done|].
    intros [= <-]. destruct (IH ts eq_refl) as [H1 H2].
    split; [constructor; [by exists d | done] | simpl; congruence].
Qed.

Lemma create_embeddings_runs (st : State) (chunks : list loc)
    (texts : list value) (m : matrix) :
  chunks ≠ [] →
  texts_of (store st) chunks = inr texts →
  self_model (self st) texts = Some m →
  create_embeddings chunks st
  = (inr m,
     {| self := set_embeddings (Some m) (set_chunks chunks (self st));
        store := store st;
        encode_calls := encode_calls st ++ [texts] |}).
Proof.
  intros Hne Htexts Hmodel. unfold create_embeddings.
  destruct chunks as [|c chunks]; [done|].
  unfold bind at 1. unfold modify_self. cbv beta iota.
  unfold bind at 1. rewrite chunk_texts_eq.
  change (store (with_self (set_chunks (c :: chunks)) st)) with (store st).
  rewrite Htexts.
  unfold try_except, bind, model_encode. cbv beta iota.
  change (self_model (self (with_self (set_chunks (c :: chunks)) st)))
    with (self_model (self st)).
  by rewrite Hmodel.
Qed.

Lemma ingest_runs (st : State) (chunks : list loc) (texts : list value)
    (m : matrix) :
  chunks ≠ [] →
  texts_of (store st) chunks = inr texts →
  self_model (self st) texts = Some m →
  m ≠ [] →
  ingest chunks st
  = (inr tt,
     {| self := ingested (self st) chunks m; store := store st;
        encode_calls := encode_calls st ++ [texts] |}).
Proof.
  intros Hne Htexts Hmodel Hm. unfold ingest. unfold bind at 1.
  rewrite (create_embeddings_runs st chunks texts m Hne Htexts Hmodel).
  destruct m as [|row m]; [done|]. reflexivity.
Qed.

(** X15. A successful ingestion — the model embeds the texts of a
    non-empty list of chunks as a matrix with rows — calls the model
    exactly once, on all the texts in order, and leaves a retriever whose
    chunk list is the new list, whose embeddings are the matrix and whose
    index holds the rows of the matrix in order; nothing of what the
    retriever held before remains, and the dictionaries are untouched.
    With one row per chunk the retriever is ready. *)
Theorem ingest_success (st : State) (chunks : list loc) (texts : list value)
    (m : matrix) :
  chunks ≠ [] →
  texts_of (store st) chunks = inr texts →
  self_model (self st) texts = Some m →
  m ≠ [] →
  ∃ st' ix,
    ingest chunks st = (inr tt, st')
    ∧ self st' = ingested (self st) chunks m
    ∧ self_index (self st') = Some ix ∧ xb ix = m
    ∧ store st' = store st
    ∧ encode_calls st' = encode_calls st ++ [texts]
    ∧ (length m = length chunks → Ready st' ix).
Proof.
  intros Hne Htexts Hmodel Hm.
  eexists _, _. split; [by apply (ingest_runs st chunks texts m)|].
  simpl. do 5 (split; [done|]).
  intros Hlen. split; [done|]. split; [done|]. split; [done|].
  by apply (texts_of_stored _ _ texts).
Qed.

Lemma ingest_success_witness :
  ∃ st' ix,
    ingest [0%nat; 1%nat] demo_empty = (inr tt, st')
    ∧ self_index (self st') = Some ix
    ∧ xb ix = [[10%Q; 2%Q]; [5%Q; 1%Q]]
    ∧ Ready st' ix.
Proof.
  destruct (ingest_success demo_empty [0%nat; 1%nat]
              [VStr (lit "alpha beta"); VStr (lit "gamma")]
              [[10%Q; 2%Q]; [5%Q; 1%Q]])
    as (st' & ix & H1 & _ & H3 & H4 & _ & _ & H7).
  - discriminate.
  - vm_compute. reflexivity.
  - vm_compute. reflexivity.
  - discriminate.
  - exists st', ix. repeat split; try assumption. all: apply H7; reflexivity.
Defined.

(** X16. For a non-empty list of chunks, calling [create_embeddings] and
    then [build_faiss_index] without an argument does what ingestion does,
    whether the embedding succeeds or raises: the index is built from the
    embeddings just stored. *)
Theorem build_faiss_index_default_argument (st : State) (chunks : list loc) :
  chunks ≠ [] →
  (create_embeddings chunks ;;; build_faiss_index None) st = ingest chunks st.
Proof.
  intros Hne. unfold ingest, bind.
  destruct chunks as [|c chunks]; [done|].
  destruct (create_embeddings (c :: chunks) st) as [[e|m] st'] eqn:Hrun; [done|].
  assert (Hemb : self_embeddings (self st') = Some m).
  { revert Hrun. unfold create_embeddings.
    unfold bind at 1. unfold modify_self. cbv beta iota.
    unfold bind at 1.
    destruct (chunk_texts (c :: chunks) _) as [[e|texts] st1]; [done|].
    unfold try_except, bind, model_encode. cbv beta iota.
    destruct (self_model (self st1) texts); [|done].
    by intros [= <- <-]. }
  unfold build_faiss_index, bind, get_self. cbv beta iota. by rewrite Hemb.
Qed.

Lemma build_faiss_index_default_argument_witness :
  (create_embeddings [0%nat; 1%nat] ;;; build_faiss_index None) demo_empty
  = ingest [0%nat; 1%nat] demo_empty.
Proof.
  apply (build_faiss_index_default_argument demo_empty [0%nat; 1%nat]).
  discriminate.
Defined.

(** X17. A chunk without ["text"] makes [create_embeddings] raise
    [KeyError] before the model is called; the chunk list has been
    replaced by then, the index and the embeddings have not. *)
Theorem create_embeddings_missing_text (st : State) (chunks : list loc) :
  chunks ≠ [] →
  texts_of (store st) chunks = inl KeyError →
  create_embeddings chunks st
  = (inl KeyError, with_self (set_chunks chunks) st).
Proof.
  intros Hne Htexts. unfold create_embeddings.
  destruct chunks as [|c chunks]; [done|].
  unfold bind at 1. unfold modify_self. cbv beta iota.
  unfold bind at 1. rewrite chunk_texts_eq.
  change (store (with_self (set_chunks (c :: chunks)) st)) with (store st).
  by rewrite Htexts.
Qed.

Lemma create_embeddings_missing_text_witness :
  create_embeddings [0%nat; 1%nat] demo_no_text
  = (inl KeyError, with_self (set_chunks [0%nat; 1%nat]) demo_no_text).
Proof.
  apply (create_embeddings_missing_text demo_no_text [0%nat; 1%nat]).
  - discriminate.
  - vm_compute. reflexivity.
Defined.

(** X18. On a ready retriever the hits behind the results of a query are
    the nearest rows within reach, then padding. Each result is a copy of
    the chunk that Python reads at the row id of its hit, with the hit's
    distance as [similarity_score] and its 1-based position as [rank]. The
    first hits report rows of the index, no row twice, each with the
    distance FAISS computed for it; the hits after them are padding
    [(FLT_MAX, -1)], whose row id Python reads as the last chunk. A row
    within reach that is not reported is at least as far from the query as
    every hit, and there is no padding then. *)
Theorem retrieve_nearest_chunks `{faiss : Faiss} (st : State) (ix : IndexFlatL2)
    (query : pystr) (top_k : Z) (qv : vec) :
  Ready st ix →
  ¬ Forall (fun c => is_space c = true) query →
  self_model (self st) [VStr query] = Some [qv] →
  length qv = dim ix →
  1 ≤ top_k →
  ∃ (results : list loc) (hits : list (Q * Z)) (n : nat) (st' : State),
    retrieve_relevant_chunks query top_k st = (inr results, st')
    ∧ length hits = length results
    ∧ (∀ (j : nat) (l : loc) (h : Q * Z),
         results !! j = Some l → hits !! j = Some h →
         ∃ c d,
           py_index (self_chunks (self st)) (snd h) = inr c
           ∧ store st !! c = Some d
           ∧ store st' !! l = Some (tagged d (fst h) (Z.of_nat j + 1)))
    ∧ Forall (row_hit ix qv) (take n hits)
    ∧ NoDup (snd <$> take n hits)
    ∧ drop n hits = replicate (length hits - n) (FLT_MAX, -1)
    ∧ (∀ c, last (self_chunks (self st)) = Some c →
            py_index (self_chunks (self st)) (-1) = inr c)
    ∧ (∀ (i : nat) (x : vec) (d : Q),
         xb ix !! i = Some x → fvec_L2sqr qv x = Some d → (d < FLT_MAX)%Q →
         Z.of_nat i ∉ snd <$> hits →
         n = length hits ∧ Forall (fun h => (fst h <= d)%Q) hits).
Proof.
  intros HR Hq Hmodel Hdim Hk.
  destruct (retrieve_ready_run st ix query top_k qv HR Hq Hmodel Hdim Hk)
    as (k & results & st' & Hkdef & Hrun & _ & Hlen & Hres).
  destruct (nearest_spec ix k qv) as (Hhits & _ & Hnodup & Hnlen & _ & Hout).
  exists results, (search_row ix k qv), (length (nearest ix k qv)), st'.
  assert (Htake : take (length (nearest ix k qv)) (search_row ix k qv)
                  = nearest ix k qv).
  { unfold search_row. cbv zeta. by rewrite take_app_length. }
  assert (Hslen : length (search_row ix k qv) = k)
    by apply search_row_spec.
  split; [exact Hrun|]. split; [done|]. split; [exact Hres|].
  rewrite Htake. split; [exact Hhits|]. split; [exact Hnodup|]. split.
  { rewrite Hslen. unfold search_row. cbv zeta. by rewrite drop_app_length. }
  split.
  { intros c Hc. destruct HR as (_ & Hne & _).
    destruct (py_index_valid (self_chunks (self st)) (-1)) as [c' Hc'].
    { destruct (self_chunks (self st)); [done | simpl; lia]. }
    rewrite Hc'. apply py_index_last in Hc'. congruence. }
  intros i x d Hx Hd Hlt Hnot.
  destruct (Hout i x d Hx Hd Hlt) as [Hfull Hle].
  { intros Hin. apply Hnot. unfold search_row. cbv zeta.
    rewrite fmap_app. apply elem_of_app. by left. }
  rewrite Hslen. split; [exact Hfull|].
  unfold search_row. cbv zeta. rewrite Hfull, Nat.sub_diag. simpl.
  by rewrite app_nil_r.
Qed.

Lemma retrieve_nearest_chunks_witness :
  ∃ (results : list loc) (hits : list (Q * Z)) (n : nat) (st' : State),
    retrieve_relevant_chunks (faiss := demo_faiss) (lit "gamma") 2 demo_far
    = (inr results, st')
    ∧ length hits = length results
    ∧ NoDup (snd <$> take n hits)
    ∧ drop n hits = replicate (length hits - n) (FLT_MAX, -1).
Proof.
  destruct (retrieve_nearest_chunks (faiss := demo_faiss) demo_far far_index
              (lit "gamma") 2 [5%Q; 1%Q])
    as (results & hits & n & st' & H1 & H2 & _ & _ & H5 & H6 & _).
  - apply demo_far_Ready.
  - intros H. apply Forall_cons in H as [H _]. discriminate H.
  - reflexivity.
  - reflexivity.
  - lia.
  - by exists results, hits, n, st'.
Defined.

(** The row that is out of reach is replaced by padding: the second result
    of the query is the last chunk, with [FLT_MAX] as its score. *)
Lemma retrieve_padding_example :
  let run := retrieve_relevant_chunks (faiss := demo_faiss) (lit "gamma") 2
               demo_far in
  fst run = inr [5%nat; 6%nat]
  ∧ texts_at (snd run) [5%nat; 6%nat]
    = [Some (VStr (lit "alpha beta")); Some (VStr (lit "gamma"))]
  ∧ (store (snd run) !! 6%nat ≫= fun d : dict => d !! "similarity_score")
    = Some (VFloat FLT_MAX).
Proof. vm_compute. repeat split; reflexivity. Qed.

(** A query always returns a list: whatever is raised after the two early
    returns is caught. *)
Lemma retrieve_run_cases `{faiss : Faiss} (query : pystr) (top_k : Z) (st : State) :
  ∃ results st', retrieve_relevant_chunks query top_k st = (inr results, st').
Proof.
  unfold retrieve_relevant_chunks.
  destruct (negb (truthy (strip query))); [by eexists _, _|].
  unfold bind at 1. unfold get_self. cbv beta iota.
  destruct (self_index (self st)) as [ix|]; [|by eexists _, _].
  destruct (length (self_chunks (self st)) =? 0)%nat; [by eexists _, _|].
  unfold try_except.
  destruct (bind _ _ _) as [[e|r] st']; by eexists _, _.
Qed.

(** X19. [retrieve_relevant_chunks] never raises: in every state and for
    every query and [top_k] it returns a list. When the embedding model
    raises on the query, and when [top_k ≤ 0], the list is empty. *)
Theorem retrieve_never_raises `{faiss : Faiss} (query : pystr) (top_k : Z) (st : State) :
  (∃ results, fst (retrieve_relevant_chunks query top_k st) = inr results)
  ∧ (self_model (self st) [VStr query] = None →
     fst (retrieve_relevant_chunks query top_k st) = inr [])
  ∧ (top_k ≤ 0 → fst (retrieve_relevant_chunks query top_k st) = inr []).
Proof.
  split.
  { destruct (retrieve_run_cases query top_k st) as (r & st' & ->). by exists r. }
  split; intros H; unfold retrieve_relevant_chunks;
    (destruct (negb (truthy (strip query))); [done|]);
    unfold bind at 1; unfold get_self; cbv beta iota;
    (destruct (self_index (self st)) as [ix|]; [|done]);
    (destruct (length (self_chunks (self st)) =? 0)%nat; [done|]);
    unfold try_except, bind, model_encode; cbv beta iota.
  - by rewrite H.
  - destruct (self_model (self st) [VStr query]) as [qe|]; [|done].
    unfold index_search.
    destruct (negb (forallb _ qe)); [done|].
    destruct (Z.leb_spec (Z.min top_k (Z.of_nat (length (self_chunks (self st))))) 0);
      [done | lia].
Qed.

Lemma retrieve_never_raises_witness :
  fst (retrieve_relevant_chunks (faiss := demo_faiss) (lit "gamma") 3 demo_failing) = inr []
  ∧ fst (retrieve_relevant_chunks (faiss := demo_faiss) (lit "gamma") 0 demo_ready) = inr [].
Proof.
  split.
  - apply (proj1 (proj2 (retrieve_never_raises (faiss := demo_faiss) (lit "gamma") 3 demo_failing))).
    reflexivity.
  - apply (proj2 (proj2 (retrieve_never_raises (faiss := demo_faiss) (lit "gamma") 0 demo_ready))).
    lia.
Defined.

(* ===================================================================== *)
(** * Re-ingestion, statistics, construction *)
(* ===================================================================== *)





(** X21. After a successful ingestion of [N] chunks embedded as [N] rows of
    dimension [D], [get_retrieval_stats] reports [N] as [total_chunks] and
    as [index_size], that the index is built, and [D] as the embedding
    dimension; it leaves the state as it is. *)
Theorem get_retrieval_stats_after_ingest (st : State) (chunks : list loc)
    (texts : list value) (row : vec) (m : matrix) :
  chunks ≠ [] →
  texts_of (store st) chunks = inr texts →
  self_model (self st) texts = Some (row :: m) →
  length (row :: m) = length chunks →
  get_retrieval_stats (snd (ingest chunks st))
  = (inr {| stats_model_name := self_model_name (self st);
            stats_total_chunks := Z.of_nat (length chunks);
            stats_index_built := true;
            stats_embedding_dimension := Some (Z.of_nat (length row));
            stats_index_size := Z.of_nat (length chunks) |},
     snd (ingest chunks st)).
Proof.
  intros Hne Htexts Hmodel Hlen.
  rewrite (ingest_runs st chunks texts (row :: m) Hne Htexts Hmodel) by done.
  unfold get_retrieval_stats, bind, get_self, ret, lift, shape1, ntotal.
  cbn [self ingested self_embeddings self_index self_chunks self_model_name xb snd].
  cbv beta iota. rewrite Hlen. reflexivity.
Qed.

Lemma get_retrieval_stats_after_ingest_witness :
  get_retrieval_stats demo_ready
  = (inr {| stats_model_name := lit "all-MiniLM-L6-v2";
            stats_total_chunks := 2;
            stats_index_built := true;
            stats_embedding_dimension := Some 2;
            stats_index_size := 2 |},
     demo_ready).
Proof.
  apply (get_retrieval_stats_after_ingest demo_empty [0%nat; 1%nat]
           [VStr (lit "alpha beta"); VStr (lit "gamma")]
           [10%Q; 2%Q] [[5%Q; 1%Q]]).
  - discriminate.
  - vm_compute. reflexivity.
  - vm_compute. reflexivity.
  - reflexivity.
Defined.

(** X22. [initialize_retrieval_system] raises [ModelLoadError] when the
    model cannot be loaded; with no chunks it returns a retriever on which
    every query gives the empty list; and when the model embeds the texts
    of the chunks, one row each, it returns a ready retriever over these
    chunks, row [i] of its index being the embedding of chunk [i]. *)
Theorem initialize_retrieval_system_cases `{faiss : Faiss}
    (load_model : pystr → option (list value → option matrix))
    (chunks : list loc) (model_name : pystr) (heap : gmap loc dict) :
  (load_model model_name = None →
   initialize_retrieval_system load_model chunks model_name heap
   = inl ModelLoadError)
  ∧ (∀ model, load_model model_name = Some model → chunks = [] →
       initialize_retrieval_system load_model chunks model_name heap
       = inr (new_retriever model_name model)
       ∧ ∀ query top_k calls,
           fst (retrieve_relevant_chunks query top_k
                  {| self := new_retriever model_name model; store := heap;
                     encode_calls := calls |}) = inr [])
  ∧ (∀ model texts m,
       load_model model_name = Some model → chunks ≠ [] →
       texts_of heap chunks = inr texts → model texts = Some m →
       length m = length chunks →
       ∃ r ix,
         initialize_retrieval_system load_model chunks model_name heap = inr r
         ∧ self_chunks r = chunks
         ∧ self_index r = Some ix ∧ xb ix = m
         ∧ ∀ calls, Ready {| self := r; store := heap; encode_calls := calls |} ix).
Proof.
  unfold initialize_retrieval_system. split; [by intros ->|]. split.
  - intros model -> ->. split; [done|].
    intros query top_k calls. rewrite retrieve_empty_state; [done|]. by left.
  - intros model texts m -> Hne Htexts Hmodel Hlen.
    assert (Hm : m ≠ []).
    { intros ->. destruct chunks; [done | discriminate]. }
    rewrite (ingest_runs {| self := new_retriever model_name model; store := heap;
                            encode_calls := [] |} chunks texts m Hne Htexts Hmodel Hm).
    destruct chunks as [|c chunks]; [done|].
    eexists _, _. split; [reflexivity|]. simpl.
    split; [done|]. split; [done|]. split; [done|].
    intros calls. split; [done|]. split; [done|]. split; [done|].
    by apply (texts_of_stored _ _ texts).
Qed.

Lemma initialize_retrieval_system_cases_witness :
  ∃ r ix,
    initialize_retrieval_system (fun _ => Some demo_model) [0%nat; 1%nat]
      (lit "all-MiniLM-L6-v2") demo_store = inr r
    ∧ self_chunks r = [0%nat; 1%nat]
    ∧ self_index r = Some ix ∧ xb ix = [[10%Q; 2%Q]; [5%Q; 1%Q]].
Proof.
  destruct (proj2 (proj2 (initialize_retrieval_system_cases (faiss := demo_faiss)
                            (fun _ => Some demo_model) [0%nat; 1%nat]
                            (lit "all-MiniLM-L6-v2") demo_store))
              demo_model
              [VStr (lit "alpha beta"); VStr (lit "gamma")]
              [[10%Q; 2%Q]; [5%Q; 1%Q]])
    as (r & ix & H1 & H2 & H3 & H4 & _).
  - reflexivity.
  - discriminate.
  - vm_compute. reflexivity.
  - vm_compute. reflexivity.
  - reflexivity.
  - by exists r, ix.
Defined.

(* ===================================================================== *)
(** * From a query to the rendering of its results *)
(* ===================================================================== *)

Lemma chunk_record_well_typed (d : dict) : chunk_record d → well_typed_chunk d.
Proof.
  intros (_ & (n & Hn) & (s & Hs)). split.
  - intros v Hv. rewrite Hn in Hv. injection Hv as <-. by exists n.
  - intros v Hv. rewrite Hs in Hv. injection Hv as <-. by exists s.
Qed.

Section Rendering.
Context `{rt : Runtime}.

Lemma get_chunk_sources_length (chunks : list dict) (sources : list dict) :
  get_chunk_sources chunks = inr sources → length sources = length chunks.
Proof.
  revert sources. induction chunks as [|c chunks IH]; intros sources; simpl.
  - by intros [= <-].
  - destruct (chunk_source c); [done|].
    destruct (get_chunk_sources chunks) as [|ss]; [done|].
    intros [= <-]. simpl. by rewrite (IH ss).
Qed.

(** X23. On a ready retriever whose stored chunks are chunk records, the
    dictionaries a query returns are chunk records too, so both renderings
    of the results go through: [get_chunk_sources] returns one source per
    result and [format_retrieved_chunks] returns its text, neither
    raising. *)
Theorem retrieved_chunks_render `{faiss : Faiss} (st : State) (ix : IndexFlatL2) (query : pystr)
    (top_k : Z) (qv : vec) :
  Ready st ix →
  Forall (fun l => ∀ d, store st !! l = Some d → chunk_record d)
         (self_chunks (self st)) →
  ¬ Forall (fun c => is_space c = true) query →
  self_model (self st) [VStr query] = Some [qv] →
  length qv = dim ix →
  1 ≤ top_k →
  ∃ (results : list loc) (st' : State) (ds : list dict),
    retrieve_relevant_chunks query top_k st = (inr results, st')
    ∧ Forall2 (fun l d => store st' !! l = Some d) results ds
    ∧ Forall chunk_record ds
    ∧ (∃ sources, get_chunk_sources ds = inr sources
                  ∧ length sources = length results)
    ∧ (∃ text, format_retrieved_chunks ds = inr text).
Proof.
  intros HR Hrec Hq Hmodel Hdim Hk.
  destruct (retrieve_ready_run st ix query top_k qv HR Hq Hmodel Hdim Hk)
    as (k & results & st' & Hkn & Hrun & _ & Hlen & Hres).
  assert (Hds : ∃ ds, Forall2 (fun l d => store st' !! l = Some d) results ds
                      ∧ Forall chunk_record ds).
  { clear Hrun. revert Hlen Hres. generalize (search_row ix k qv).
    induction results as [|l results IH] using rev_ind; intros hits Hlen Hres.
    - exists []. split; constructor.
    - destruct (exists_last (l := hits)) as (hits' & h & ->).
      { intros ->. rewrite length_app in Hlen. simpl in Hlen. lia. }
      rewrite !length_app in Hlen. simpl in Hlen.
      destruct (IH hits') as (ds & Hds & Hall); [lia| |].
      { intros j l' h' Hl' Hh'.
        apply (Hres j l' h'); by apply lookup_app_l_Some. }
      destruct (Hres (length results) l h) as (c & d & Hc & Hd & Hst).
      { by rewrite lookup_app_r, Nat.sub_diag by lia. }
      { replace (length results) with (length hits') by lia.
        by rewrite lookup_app_r, Nat.sub_diag by lia. }
      exists (ds ++ [tagged d (fst h) (Z.of_nat (length results) + 1)]).
      split.
      + apply Forall2_app; [exact Hds|]. by repeat constructor.
      + apply Forall_app. split; [exact Hall|]. constructor; [|constructor].
        apply tagged_chunk_record.
        apply py_index_elem in Hc.
        by apply (proj1 (Forall_forall _ _) Hrec c Hc). }
  destruct Hds as (ds & Hds & Hall).
  exists results, st', ds. split; [exact Hrun|]. split; [exact Hds|].
  split; [exact Hall|]. split.
  - destruct (get_chunk_sources_well_typed ds) as [sources Hs].
    { eapply Forall_impl; [exact Hall | apply chunk_record_well_typed]. }
    exists sources. split; [exact Hs|].
    rewrite (get_chunk_sources_length ds sources Hs).
    symmetry. by eapply Forall2_length.
  - unfold format_retrieved_chunks. destruct ds as [|d ds]; [by eexists|].
    rewrite (formatted_parts_records _ Hall 1). by eexists.
Qed.

End Rendering.

Lemma demo_ready_records :
  Forall (fun l => ∀ d, store demo_ready !! l = Some d → chunk_record d)
         (self_chunks (self demo_ready)).
Proof.
  change (self_chunks (self demo_ready)) with [0%nat; 1%nat].
  apply Forall_cons. split; [|apply Forall_cons; split; [|by apply Forall_nil]];
    intros d Hd; vm_compute in Hd; injection Hd as <-;
    repeat split; eexists; reflexivity.
Qed.

Lemma retrieved_chunks_render_witness :
  ∃ (results : list loc) (st' : State) (ds : list dict),
    retrieve_relevant_chunks (faiss := demo_faiss) (lit "gamma") 2 demo_ready = (inr results, st')
    ∧ (∃ sources, get_chunk_sources (rt := demo_runtime) ds = inr sources
                  ∧ length sources = length results)
    ∧ (∃ text, format_retrieved_chunks (rt := demo_runtime) ds = inr text).
Proof.
  destruct (retrieved_chunks_render (rt := demo_runtime) (faiss := demo_faiss)
              demo_ready demo_index
              (lit "gamma") 2 [5%Q; 1%Q])
    as (results & st' & ds & H1 & _ & _ & H4 & H5).
  - apply demo_ready_Ready.
  - apply demo_ready_records.
  - intros H. apply Forall_cons in H as [H _]. discriminate H.
  - reflexivity.
  - reflexivity.
  - lia.
  - by exists results, st', ds.
Defined.
